(** * SmartFileOrganizer: category consolidation and destination resolution

    A shallow embedding of [file_organizer.py] (class [SmartFileOrganizer])
    and the properties of its consolidation and resolution engine.

    Conventions of the embedding:
    - a Python [str] is a [string]; its characters are read as code points
      below 256, which fixes what counts as white space for [str.strip] and
      for the regular expressions;
    - the two model-backed services reached over HTTP are oracles handed to
      the functions that call them; an oracle answers [Failed] when anything
      inside the surrounding [try] block raises, and [Content s] when the
      text [s] was extracted from the response;
    - an exception that leaves a function is a [Raise] result;
    - a [dict] is an association list in insertion order (Python keeps it),
      a [set] of strings is a [gset string];
    - the quotient [len(..) / len(..)] is an exact rational.  Python rounds
      it to a double and compares with the double nearest to 0.3; both
      comparisons agree as long as the union has fewer than 10^15 keywords. *)

From Stdlib Require Import Ascii String QArith.
From stdpp Require Import base gmap sets list strings pretty.

Set Warnings "-clear-no-such-hyp".

Local Open Scope stdpp_scope.

(** ** Exceptions *)

Inductive exn : Type :=
  | ZeroDivisionError
  | IndexError
  | FileExistsError.

Inductive result (A : Type) : Type :=
  | Ok (a : A)
  | Raise (e : exn).

Arguments Ok {A} a.
Arguments Raise {A} e.

Definition rbind {A B : Type} (m : result A) (k : A → result B) : result B :=
  match m with
  | Ok a => k a
  | Raise e => Raise e
  end.

Notation "x ←! m ; k" := (rbind m (λ x, k))
  (at level 100, m at next level, right associativity, only parsing).

(** ** Insertion-ordered dictionaries with a default ([collections.defaultdict]) *)

Section Dict.
Context {V : Type}.

(** [d[k] = f(d[k])], where a missing [k] is first created with [default]
    at the end of the dictionary. *)
Fixpoint dict_update (default : V) (f : V → V) (k : string)
    (d : list (string * V)) : list (string * V) :=
  match d with
  | [] => [(k, f default)]
  | (k', v) :: d' =>
      if decide (k' = k) then (k', f v) :: d'
      else (k', v) :: dict_update default f k d'
  end.

Fixpoint dict_get (k : string) (d : list (string * V)) : option V :=
  match d with
  | [] => None
  | (k', v) :: d' => if decide (k' = k) then Some v else dict_get k d'
  end.

Definition dict_keys (d : list (string * V)) : list string := d.*1.
End Dict.

(** ** Records gathered for each file *)

(** One tuple [(file_path, category, new_name, keywords)] of [file_data]. *)
Record file_record : Type := FileRecord {
  file_path : string;
  category : string;
  new_name : string;
  keywords : list string
}.

(** ** Keyword similarity *)

(** [len(keywords1.intersection(keywords2)) / len(keywords1.union(keywords2))] *)
Definition similarity (keywords1 keywords2 : gset string) : result Q :=
  let inter := size (keywords1 ∩ keywords2) in
  let union := size (keywords1 ∪ keywords2) in
  match union with
  | O => Raise ZeroDivisionError
  | S _ => Ok (Z.of_nat inter # Pos.of_nat union)
  end.

(** [similarity > 0.3] *)
Definition above_threshold (sim : Q) : bool := negb (Qle_bool sim (3 # 10)).

(** The first loop of [merge_categories]:
    [category_keywords[category].update(keywords)] for every record. *)
Definition collect_keywords (file_data : list file_record)
    : list (string * gset string) :=
  foldl (λ d r, dict_update ∅ (λ s, s ∪ list_to_set (keywords r)) (category r) d)
        [] file_data.

(** ** Strings: the pieces of [str], [re] and [os.path] the program uses *)

Definition is_newline (c : ascii) : bool := bool_decide (c = "010"%char).

(** White space as [str.isspace] and the pattern [\s] see it. *)
Definition is_space (c : ascii) : bool :=
  let n := N_of_ascii c in
  ((9 <=? n) && (n <=? 13) || (28 <=? n) && (n <=? 32)
   || (n =? 133) || (n =? 160))%N.

Fixpoint lstrip (s : string) : string :=
  match s with
  | EmptyString => EmptyString
  | String c r => if is_space c then lstrip r else s
  end.

Fixpoint rstrip (s : string) : string :=
  match s with
  | EmptyString => EmptyString
  | String c r =>
      match rstrip r with
      | EmptyString => if is_space c then EmptyString else String c EmptyString
      | r' => String c r'
      end
  end.

(** [s.strip()] *)
Definition strip (s : string) : string := rstrip (lstrip s).

(** The character class that the three [re.sub] calls delete: the two angle
    brackets, colon, double quote (character 34), slash, backslash, bar,
    question mark and star. *)
Definition illegal_char (c : ascii) : bool :=
  bool_decide (c ∈ ["<"; ">"; ":"; "034"; "/"; "\"; "|"; "?"; "*"]%char).

Fixpoint sanitize (s : string) : string :=
  match s with
  | EmptyString => EmptyString
  | String c r => if illegal_char c then sanitize r else String c (sanitize r)
  end.

(** ** The naming collaborator and [get_merged_category_name] *)

(** What a request to a model-backed service amounts to. *)
Inductive reply : Type :=
  | Failed
  | Content (s : string).

(** [categories[0]] *)
Definition first_of (categories : list string) : result string :=
  match categories with
  | [] => Raise IndexError
  | c :: _ => Ok c
  end.

Definition get_merged_category_name (suggest : list string → reply)
    (categories : list string) : result string :=
  if decide (length categories = 1) then first_of categories
  else
    match suggest categories with
    | Content merged_name => Ok (sanitize (strip merged_name))
    | Failed => first_of categories
    end.

(** ** [merge_categories] *)

(** The inner loop over [category_keywords.items()]: the categories appended
    to [similar_cats] after its first entry [cat1]. *)
Fixpoint find_similar (cat1 : string) (keywords1 : gset string)
    (processed_categories : gset string)
    (items : list (string * gset string)) : result (list string) :=
  match items with
  | [] => Ok []
  | (cat2, keywords2) :: items' =>
      if bool_decide (cat2 ≠ cat1 ∧ cat2 ∉ processed_categories) then
        sim ←! similarity keywords1 keywords2;
        more ←! find_similar cat1 keywords1 processed_categories items';
        Ok (if above_threshold sim then cat2 :: more else more)
      else find_similar cat1 keywords1 processed_categories items'
  end.

(** The variables the outer loop updates.  [clusters] is a ghost log of each
    [similar_cats] with the [merged_name] it was given; the program does not
    keep it. *)
Record merge_state : Type := MergeState {
  merged_categories : list (string * list (string * string));
  processed_categories : gset string;
  clusters : list (list string * string)
}.

(** [for file_path, category, new_name, _ in file_data:
       if category == cat: merged_categories[merged_name].append(..)] *)
Definition append_files (file_data : list file_record) (merged_name cat : string)
    (merged : list (string * list (string * string)))
    : list (string * list (string * string)) :=
  foldl (λ d r,
           if decide (category r = cat)
           then dict_update [] (λ l, l ++ [(file_path r, new_name r)]) merged_name d
           else d)
        merged file_data.

(** [for cat in similar_cats: processed_categories.add(cat); ...] *)
Definition merge_cluster (file_data : list file_record) (merged_name : string)
    (similar_cats : list string) (st : merge_state) : merge_state :=
  foldl (λ st cat,
           {| merged_categories :=
                append_files file_data merged_name cat (merged_categories st);
              processed_categories := {[cat]} ∪ processed_categories st;
              clusters := clusters st |})
        st similar_cats.

Global Arguments merge_cluster : simpl never.

(** The outer loop, over the part [items] of [category_keywords.items()]
    that is still to come; [all_items] is the whole dictionary, which the
    inner loop walks from its start. *)
Fixpoint merge_loop (suggest : list string → reply)
    (file_data : list file_record) (all_items items : list (string * gset string))
    (st : merge_state) : result merge_state :=
  match items with
  | [] => Ok st
  | (cat1, keywords1) :: items' =>
      if bool_decide (cat1 ∈ processed_categories st) then
        merge_loop suggest file_data all_items items' st
      else
        more ←! find_similar cat1 keywords1 (processed_categories st) all_items;
        let similar_cats := cat1 :: more in
        merged_name ←! get_merged_category_name suggest similar_cats;
        let st' := merge_cluster file_data merged_name similar_cats st in
        merge_loop suggest file_data all_items items'
          {| merged_categories := merged_categories st';
             processed_categories := processed_categories st';
             clusters := clusters st' ++ [(similar_cats, merged_name)] |}
  end.

Definition merge_run (suggest : list string → reply)
    (file_data : list file_record) : result merge_state :=
  let category_keywords := collect_keywords file_data in
  merge_loop suggest file_data category_keywords category_keywords
    {| merged_categories := []; processed_categories := ∅; clusters := [] |}.

Definition merge_categories (suggest : list string → reply)
    (file_data : list file_record)
    : result (list (string * list (string * string))) :=
  st ←! merge_run suggest file_data;
  Ok (merged_categories st).

(** The clusters formed, in order: the ghost log without the names. *)
Definition merge_clusters (suggest : list string → reply)
    (file_data : list file_record) : result (list (list string)) :=
  st ←! merge_run suggest file_data;
  Ok ((clusters st).*1).

(** ** The grouper as the specification words it *)

Module Spec.

(** Jaccard similarity, defined as 0 when the union is empty. *)
Definition jaccard (A B : gset string) : Q :=
  if decide (A ∪ B = ∅) then 0
  else Z.of_nat (size (A ∩ B)) # Pos.of_nat (size (A ∪ B)).

Definition similar (A B : gset string) : bool :=
  negb (Qle_bool (jaccard A B) (3 # 10)).

(** The raw categories in the order in which they were first produced. *)
Fixpoint first_seen (cats : list string) : list string :=
  match cats with
  | [] => []
  | c :: cats' => c :: filter (λ d, d ≠ c) (first_seen cats')
  end.

(** The keyword profile of a raw category: the union of the keywords of
    all records sharing that category. *)
Definition profile (file_data : list file_record) (c : string) : gset string :=
  ⋃ ((λ r, list_to_set (keywords r)) <$> filter (λ r, category r = c) file_data).

Definition profiles (file_data : list file_record) : list (string * gset string) :=
  (λ c, (c, profile file_data c)) <$> first_seen (category <$> file_data).

(** [{C} ∪ {D : D unprocessed, sim(C,D) > 0.30}], seed first, the others in
    first-seen order. *)
Definition cluster_of (all : list (string * gset string)) (processed : gset string)
    (C : string) (kC : gset string) : list string :=
  C :: dict_keys (filter (λ '(D, kD), D ≠ C ∧ (D ∉ processed) ∧ similar kC kD = true) all).

(** Take the next unprocessed category, form its cluster, mark the cluster
    processed, repeat. *)
Fixpoint grouper (all : list (string * gset string)) (processed : gset string)
    (todo : list (string * gset string)) : list (list string) :=
  match todo with
  | [] => []
  | (C, kC) :: todo' =>
      if decide (C ∈ processed) then grouper all processed todo'
      else
        let cluster := cluster_of all processed C kC in
        cluster :: grouper all (list_to_set cluster ∪ processed) todo'
  end.

Definition clusters_of (file_data : list file_record) : list (list string) :=
  grouper (profiles file_data) ∅ (profiles file_data).

End Spec.

Global Arguments Spec.cluster_of : simpl never.

(** No two distinct categories both have an empty keyword profile. *)
Definition at_most_one_empty (items : list (string * gset string)) : bool :=
  bool_decide (length (filter (λ '(_, k), k = ∅) items) ≤ 1).

(** Pairs of distinct categories never have an empty union of keywords. *)
Definition unions_nonempty (items : list (string * gset string)) : Prop :=
  ∀ c1 k1 c2 k2, (c1, k1) ∈ items → (c2, k2) ∈ items → c1 ≠ c2 → k1 ∪ k2 ≠ ∅.


(** ** [os.path.splitext] and [pathlib] *)

(** [p.rfind(c)] counted from index [i] of the first character: the index of
    the last [c], or -1. *)
Fixpoint rfind_from (c : ascii) (p : string) (i : Z) : Z :=
  match p with
  | EmptyString => -1
  | String a p' =>
      let later := rfind_from c p' (i + 1) in
      if (0 <=? later)%Z then later else if decide (a = c) then i else (-1)%Z
  end.

Definition rfind (c : ascii) (p : string) : Z := rfind_from c p 0.

Fixpoint str_take (n : nat) (s : string) : string :=
  match n, s with
  | S n', String a s' => String a (str_take n' s')
  | _, _ => EmptyString
  end.

Fixpoint str_drop (n : nat) (s : string) : string :=
  match n, s with
  | S n', String _ s' => str_drop n' s'
  | _, _ => s
  end.

(** [p[i:j]] for indices that are not negative. *)
Definition slice (p : string) (i j : Z) : string :=
  str_take (Z.to_nat (j - i)) (str_drop (Z.to_nat i) p).

Fixpoint all_dots (s : string) : bool :=
  match s with
  | EmptyString => true
  | String a s' => bool_decide (a = "."%char) && all_dots s'
  end.

(** [os.path.splitext(p)] with the separator [/]: split at the last dot of
    the last component, unless that component starts with it or has only
    dots before it.  The loop of [genericpath._splitext] that looks for a
    character other than a dot in [p[sepIndex+1:dotIndex]] is [all_dots]. *)
Definition splitext (p : string) : string * string :=
  let sepIndex := rfind "/" p in
  let dotIndex := rfind "." p in
  if (sepIndex <? dotIndex)%Z && negb (all_dots (slice p (sepIndex + 1) dotIndex))
  then (str_take (Z.to_nat dotIndex) p, str_drop (Z.to_nat dotIndex) p)
  else (p, EmptyString).

(** [dir / name], for a [name] that is one plain path component. *)
Definition path_join (dir name : string) : string := dir +:+ "/" +:+ name.

(** [file_path.name]: what follows the last separator. *)
Definition path_name (file_path : string) : string :=
  str_drop (Z.to_nat (rfind "/" file_path + 1)) file_path.

Fixpoint starts_with (prefix s : string) : bool :=
  match prefix, s with
  | EmptyString, _ => true
  | String a prefix', String b s' => bool_decide (a = b) && starts_with prefix' s'
  | String _ _, EmptyString => false
  end.

(** [needle in haystack] *)
Fixpoint contains (needle haystack : string) : bool :=
  starts_with needle haystack
  || match haystack with
     | EmptyString => false
     | String _ haystack' => contains needle haystack'
     end.

(** ** The regular expressions of [analyze_filename] *)

(** [(.+)] as far as it reaches: the characters up to the next newline. *)
Fixpoint dot_plus (s : string) : string :=
  match s with
  | EmptyString => EmptyString
  | String c r => if is_newline c then EmptyString else String c (dot_plus r)
  end.

(** [\s*(.+)] matched at the start of [s]; the result is group 1.  The
    greedy [\s*] first takes a white-space character and gives it back only
    when the rest cannot match. *)
Fixpoint spaces_then_group (s : string) : option string :=
  match s with
  | EmptyString => None
  | String c r =>
      if is_space c then
        match spaces_then_group r with
        | Some g => Some g
        | None => if is_newline c then None else Some (dot_plus s)
        end
      else Some (dot_plus s)
  end.

Fixpoint strip_prefix (prefix s : string) : option string :=
  match prefix, s with
  | EmptyString, _ => Some s
  | String a prefix', String b s' =>
      if decide (a = b) then strip_prefix prefix' s' else None
  | String _ _, EmptyString => None
  end.

(** [re.search(label + r'\s*(.+)', s)]: group 1 of the leftmost match. *)
Fixpoint re_search (label s : string) : option string :=
  match strip_prefix label s ≫= spaces_then_group with
  | Some g => Some g
  | None =>
      match s with
      | EmptyString => None
      | String _ s' => re_search label s'
      end
  end.

(** [s.split(sep)] for a separator of one character. *)
Fixpoint split_on (sep : ascii) (s : string) : list string :=
  match s with
  | EmptyString => [EmptyString]
  | String c r =>
      if decide (c = sep) then EmptyString :: split_on sep r
      else
        match split_on sep r with
        | [] => [String c EmptyString]
        | h :: t => String c h :: t
        end
  end.

(** ** [analyze_filename] *)

(** [llm] is the classification service, asked about [name]. *)
Definition analyze_filename (llm : string → reply) (filename : string)
    : string * string * list string :=
  let '(name, ext) := splitext filename in
  match llm name with
  | Content result =>
      let category_match := re_search "CATEGORY:" result in
      let keywords_match := re_search "KEYWORDS:" result in
      let name_match := re_search "NEWNAME:" result in
      let category :=
        match category_match with Some g => strip g | None => "Misc" end in
      let keywords :=
        match keywords_match with
        | Some g => strip <$> split_on "," g
        | None => []
        end in
      let new_name :=
        match name_match with Some g => strip g | None => name end in
      let category := sanitize category in
      let new_name := sanitize new_name in
      (category, new_name +:+ ext, keywords)
  | Failed => ("Misc", filename, [])
  end.

(** ** The file system *)

Inductive node : Type :=
  | RegularFile
  | Directory.

Global Instance node_eq_dec : EqDecision node.
Proof. solve_decision. Defined.

(** [p.exists()] *)
Definition path_exists (fs : gmap string node) (p : string) : bool :=
  bool_decide (is_Some (fs !! p)).

(** [p.is_file()] *)
Definition is_file (fs : gmap string node) (p : string) : bool :=
  bool_decide (fs !! p = Some RegularFile).

(** [p.mkdir(parents=True, exist_ok=True)].  Directories above [p] are not
    tracked: the program never asks whether one exists. *)
Definition mkdir (p : string) (fs : gmap string node) : result (gmap string node) :=
  match fs !! p with
  | Some Directory => Ok fs
  | Some RegularFile => Raise FileExistsError
  | None => Ok (<[p := Directory]> fs)
  end.

(** [shutil.move(src, dst)] onto a path that does not exist; [None] when it
    raises, because [src] is missing or because the environment refuses
    ([move_fails]: for instance a source that cannot be read, in a directory
    that cannot be written).  A move that raises is taken to leave the file
    system as it was. *)
Definition shutil_move (move_fails : string → string → bool) (src dst : string)
    (fs : gmap string node) : option (gmap string node) :=
  match fs !! src with
  | Some n => if move_fails src dst then None else Some (<[dst := n]> (delete src fs))
  | None => None
  end.

(** ** [organize_files] *)

(** What the run depends on besides the file system: the answer of the
    classification service to its [n]-th request, the answer of the naming
    service, and the moves that the environment refuses. *)
Record world : Type := World {
  classify : nat → string → reply;
  suggest : list string → reply;
  move_fails : string → string → bool
}.

Record stats : Type := Stats {
  processed : nat;
  moved : nat;
  errors : nat
}.

Inductive outcome : Type :=
  | Moved
  | WouldMove
  | MoveFailed.

Global Instance outcome_eq_dec : EqDecision outcome.
Proof. solve_decision. Defined.

(** One pass of the innermost loop: the group, the file, the path the
    [while] loop settled on, and what happened next. *)
Record decision : Type := MkDecision {
  d_category : string;
  d_source : string;
  d_destination : string;
  d_outcome : outcome
}.

(** The state of the third phase; [trace] is a ghost log. *)
Record run_state : Type := RunState {
  fs : gmap string node;
  run_stats : stats;
  trace : list decision
}.

Definition excluded (file_path : string) : bool :=
  existsb (λ p, contains p file_path) [".git"; "__pycache__"; ".pytest_cache"].

(** The files of the listing that the first loop analyses. *)
Definition discovered (fs : gmap string node) (listing : list string) : list string :=
  filter (λ file_path, is_file fs file_path && negb (excluded file_path) = true)
         listing.

(** The body of the first loop, on [(all_file_data, stats["processed"])]. *)
Definition collect_step (classify : nat → string → reply) (fs : gmap string node)
    (acc : list file_record * nat) (file_path : string) : list file_record * nat :=
  let '(all_file_data, processed) := acc in
  if is_file fs file_path && negb (excluded file_path) then
    let '(category, new_name, keywords) :=
      analyze_filename (classify processed) (path_name file_path) in
    (all_file_data ++ [FileRecord file_path category new_name keywords],
     S processed)
  else acc.

(** The candidate of the [while] loop for a given [counter]. *)
Definition candidate (category_path new_name : string) (counter : nat) : string :=
  let name_parts := splitext new_name in
  path_join category_path (name_parts.1 +:+ "_" +:+ pretty counter +:+ name_parts.2).

(** [while new_file_path.exists(): ...], for at most [fuel] tests. *)
Fixpoint while_exists (fuel : nat) (fs : gmap string node)
    (category_path new_name new_file_path : string) (counter : nat) : option string :=
  match fuel with
  | O => None
  | S fuel' =>
      if path_exists fs new_file_path then
        while_exists fuel' fs category_path new_name
          (candidate category_path new_name counter) (S counter)
      else Some new_file_path
  end.

(** The destination the loop settles on.  The file system holds [size fs]
    paths, so the loop leaves within [size fs + 2] tests
    ([while_exists_terminates]) and the last branch is never taken. *)
Definition resolve_destination (fs : gmap string node)
    (category_path new_name : string) : string :=
  match while_exists (S (S (size fs))) fs category_path new_name
          (path_join category_path new_name) 1 with
  | Some new_file_path => new_file_path
  | None => path_join category_path new_name
  end.

(** The body of the innermost loop, with its [try] and [except]. *)
Definition place_file (w : world) (dry_run : bool) (category category_path : string)
    (st : run_state) (file : string * string) : run_state :=
  let '(source_path, new_name) := file in
  let new_file_path := resolve_destination (fs st) category_path new_name in
  let '(Stats processed moved errors) := run_stats st in
  if dry_run then
    RunState (fs st) (run_stats st)
      (trace st ++ [MkDecision category source_path new_file_path WouldMove])
  else
    match shutil_move (move_fails w) source_path new_file_path (fs st) with
    | Some fs' =>
        RunState fs' (Stats processed (S moved) errors)
          (trace st ++ [MkDecision category source_path new_file_path Moved])
    | None =>
        RunState (fs st) (Stats processed moved (S errors))
          (trace st ++ [MkDecision category source_path new_file_path MoveFailed])
    end.

(** The loop over [merged_categories.items()]. *)
Fixpoint organize_groups (w : world) (target_path : string) (dry_run : bool)
    (groups : list (string * list (string * string))) (st : run_state)
    : result run_state :=
  match groups with
  | [] => Ok st
  | (category, files) :: groups' =>
      let category_path := path_join target_path category in
      fs' ←! (if dry_run then Ok (fs st) else mkdir category_path (fs st));
      organize_groups w target_path dry_run groups'
        (foldl (place_file w dry_run category category_path)
               (RunState fs' (run_stats st) (trace st)) files)
  end.

(** [organize_files(source_dir, target_dir, dry_run)]: [listing] is what
    [source_path.rglob("*")] yields, [target_path] the resolved target. *)
Definition organize_files (w : world) (fs0 : gmap string node)
    (listing : list string) (target_path : string) (dry_run : bool)
    : result run_state :=
  fs1 ←! (if dry_run then Ok fs0 else mkdir target_path fs0);
  let '(all_file_data, processed) :=
    foldl (collect_step (classify w) fs1) ([], 0) listing in
  merged_categories ←! merge_categories (suggest w) all_file_data;
  organize_groups w target_path dry_run merged_categories
    (RunState fs1 (Stats processed 0 0) []).

(** The [(category, resolved destination)] decisions of a run, in order. *)
Definition decisions (st : run_state) : list (string * string) :=
  (λ d, (d_category d, d_destination d)) <$> trace st.


(** ** Notions used to state the properties *)

(** The [(file_path, new_name)] pairs of the records of a raw category. *)
Definition files_of (file_data : list file_record) (cat : string)
    : list (string * string) :=
  (λ r, (file_path r, new_name r)) <$> filter (λ r, category r = cat) file_data.

(** The files of a cluster, category by category. *)
Definition cluster_files (file_data : list file_record) (cats : list string)
    : list (string * string) :=
  mjoin (files_of file_data <$> cats).

(** The files of all the clusters that were given the name [name], in the
    order in which the clusters were formed. *)
Definition group_files (file_data : list file_record)
    (log : list (list string * string)) (name : string) : list (string * string) :=
  mjoin ((λ e, cluster_files file_data e.1) <$> filter (λ e, e.2 = name) log).

(** [merged_categories[name].append(x)] for each [x] of [files]. *)
Definition dict_extend (name : string) (files : list (string * string))
    (d : list (string * list (string * string)))
    : list (string * list (string * string)) :=
  foldl (λ d x, dict_update [] (λ l, l ++ [x]) name d) d files.

(** What the outer loop of [merge_categories] keeps true of its state. *)
Record consistent (suggest : list string → reply) (file_data : list file_record)
    (st : merge_state) : Prop := Consistent {
  keys_distinct : NoDup (dict_keys (merged_categories st));
  group_contents : ∀ name,
    default [] (dict_get name (merged_categories st))
    = group_files file_data (clusters st) name;
  keys_are_names : dict_keys (merged_categories st) ⊆ (clusters st).*2;
  all_members : mjoin (merged_categories st).*2
                ≡ₚ mjoin ((λ e, cluster_files file_data e.1) <$> clusters st);
  names_from_namer : ∀ cats name, (cats, name) ∈ clusters st →
    get_merged_category_name suggest cats = Ok name
}.

(** The record the first loop appends for [file_path], given the service
    that answers this request. *)
Definition record_of (llm : string → reply) (file_path : string) : file_record :=
  let '(category, new_name, keywords) := analyze_filename llm (path_name file_path) in
  FileRecord file_path category new_name keywords.

Global Instance reply_eq_dec : EqDecision reply.
Proof. solve_decision. Defined.






(** ** Concrete inputs *)

(** Scenarios A and B: the first two keyword sets share two of four
    keywords, the third shares none with them. *)
Definition scenario_A : list file_record :=
  [ FileRecord "/in/hero.blend" "Modeling" "hero_character.blend" ["3d"; "render"; "character"];
    FileRecord "/in/level.blend" "GameArt" "level_props.blend" ["3d"; "render"; "game"];
    FileRecord "/in/site.fig" "Design" "landing_page.fig" ["ui"; "design"; "web"] ].

(** Two files whose answers carried no keywords: the first was not
    classified at all, the second came back without a [KEYWORDS:] line. *)
Definition two_without_keywords : list file_record :=
  [ FileRecord "/in/notes" "Misc" "notes" [];
    FileRecord "/in/report.doc" "Documents" "quarterly_report.doc" [] ].

(** Three raw categories; the last two share their keywords and form one
    cluster. *)
Definition media_files : list file_record :=
  [ FileRecord "/in/clip.mp4" "Media" "holiday_clip.mp4" ["video"; "holiday"];
    FileRecord "/in/song.mp3" "Audio" "song.mp3" ["music"; "track"];
    FileRecord "/in/jingle.wav" "Sound" "jingle.wav" ["music"; "track"] ].

(** A naming service that answers [Media] to every request. *)
Definition always_media : list string → reply := λ _, Content "Media".

(** Both services are down and no move is refused. *)
Definition service_down : world :=
  World (λ _ _, Failed) (λ _, Failed) (λ _ _, false).

(** Two files with the same name in two directories. *)
Definition two_drafts : list string := ["/in/a/draft.txt"; "/in/b/draft.txt"].

Definition two_drafts_fs : gmap string node :=
  list_to_map [("/in", Directory); ("/in/a", Directory); ("/in/b", Directory);
               ("/in/a/draft.txt", RegularFile); ("/in/b/draft.txt", RegularFile)].

Definition newline : string := String "010"%char EmptyString.

(** Scenario C: the classification service files everything under
    [Documents] and suggests the stem [draft]. *)
Definition scenario_C : world :=
  World (λ _ _, Content ("CATEGORY: Documents" +:+ newline
                         +:+ "KEYWORDS: text, draft" +:+ newline
                         +:+ "NEWNAME: draft"))
        (λ _, Failed) (λ _ _, false).




(** The classification service fails the first request and answers the
    second without a [KEYWORDS:] line. *)
Definition no_keywords : world :=
  World (λ n _, match n with
                | O => Failed
                | S _ => Content ("CATEGORY: Documents" +:+ newline
                                  +:+ "NEWNAME: quarterly_report")
                end)
        (λ _, Failed) (λ _ _, false).

Definition two_reports : list string := ["/in/notes"; "/in/report.doc"].

Definition two_reports_fs : gmap string node :=
  list_to_map [("/in", Directory); ("/in/notes", RegularFile);
               ("/in/report.doc", RegularFile)].

(** ** Further notions and inputs *)

(** No two distinct categories of [items] are similar, and no two of them
    are both without keywords. *)
Definition all_apart (items : list (string * gset string)) : bool :=
  forallb (λ '(c1, k1),
     forallb (λ '(c2, k2),
        bool_decide (c1 = c2)
        || (negb (bool_decide (k1 ∪ k2 = ∅)) && negb (Spec.similar k1 k2)))
       items)
    items.

(** An unclassified file beside a classified one. *)
Definition misc_and_documents : list file_record :=
  [ FileRecord "/in/notes" "Misc" "notes" [];
    FileRecord "/in/report.doc" "Documents" "quarterly_report.doc" ["report"] ].

(** [s] has none of the characters that [sanitize] deletes. *)
Fixpoint clean (s : string) : bool :=
  match s with
  | EmptyString => true
  | String c r => negb (illegal_char c) && clean r
  end.

(** The character [x] does not occur in [s]. *)
Fixpoint lacks (x : ascii) (s : string) : bool :=
  match s with
  | EmptyString => true
  | String c r => negb (bool_decide (c = x)) && lacks x r
  end.

(** A field of an answer: it is not empty, does not start with white space
    and stays on one line. *)
Definition plain_field (s : string) : bool :=
  match s with
  | EmptyString => false
  | String c _ => negb (is_space c) && lacks "010" s
  end.

(** An answer in the format the prompt asks for. *)
Definition formatted_answer (category keywords new_name : string) : string :=
  "CATEGORY: " +:+ category +:+ newline
  +:+ "KEYWORDS: " +:+ keywords +:+ newline
  +:+ "NEWNAME: " +:+ new_name.

(** A file whose name has a colon, and a service that answers off format. *)
Definition off_format : string → reply := λ _, Content "no idea".



(** Every request to the classification service fails. *)
Definition classifier_down (w : world) : Prop :=
  ∀ n name, classify w n name = Failed.
(** * Properties *)

(** ** Similarity *)

Lemma similarity_defined (k1 k2 : gset string) :
  k1 ∪ k2 ≠ ∅ → similarity k1 k2 = Ok (Spec.jaccard k1 k2).
Proof.
  intros Hne. unfold similarity, Spec.jaccard.
  destruct (decide (k1 ∪ k2 = ∅)) as [|_]; [done|].
  destruct (size (k1 ∪ k2)) eqn:Hsz; [|done].
  apply size_empty_iff in Hsz. by apply leibniz_equiv in Hsz.
Qed.

Lemma similarity_undefined (k1 k2 : gset string) :
  k1 ∪ k2 = ∅ → similarity k1 k2 = Raise ZeroDivisionError.
Proof. intros H. unfold similarity. by rewrite H, size_empty. Qed.

Lemma similarity_sym (k1 k2 : gset string) : similarity k1 k2 = similarity k2 k1.
Proof.
  unfold similarity.
  assert (k1 ∩ k2 = k2 ∩ k1) as -> by set_solver.
  assert (k1 ∪ k2 = k2 ∪ k1) as -> by set_solver.
  done.
Qed.

(** Scenario A: two of four keywords are shared, and 1/2 exceeds 0.30. *)
Example scenario_A_similar :
  similarity {["3d"; "render"; "character"]} {["3d"; "render"; "game"]} = Ok (2 # 4)
  ∧ above_threshold (2 # 4) = true.
Proof. split; vm_compute; reflexivity. Qed.

(** Scenario B: nothing is shared, and 0 does not exceed 0.30. *)
Example scenario_B_apart :
  similarity {["ui"; "design"; "web"]} {["3d"; "render"; "game"]} = Ok (0 # 6)
  ∧ above_threshold (0 # 6) = false.
Proof. split; vm_compute; reflexivity. Qed.

(** ** The inner loop *)

Lemma find_similar_spec (cat1 : string) (k1 P : gset string)
    (items : list (string * gset string)) :
  (∀ c2 k2, (c2, k2) ∈ items → c2 ≠ cat1 → c2 ∉ P → k1 ∪ k2 ≠ ∅) →
  find_similar cat1 k1 P items
  = Ok (dict_keys (filter (λ '(D, kD),
                             D ≠ cat1 ∧ (D ∉ P) ∧ Spec.similar k1 kD = true) items)).
Proof.
  induction items as [|[c2 k2] items IH]; intros Hne; [done|].
  simpl. rewrite filter_cons. case_bool_decide as Hc.
  - destruct Hc as [Hc1 Hc2].
    rewrite similarity_defined by (eapply Hne; [left|done..]). simpl.
    rewrite IH by (intros; eapply Hne; [by right|done..]). simpl.
    unfold above_threshold, Spec.similar.
    destruct (negb _) eqn:E.
    + by rewrite decide_True.
    + rewrite decide_False; [done|]. intros (?&?&?); congruence.
  - rewrite decide_False by (intros (?&?&?); by apply Hc).
    apply IH. intros; eapply Hne; [by right|done..].
Qed.

(** ** What one pass of the outer loop does to the state *)

Lemma merge_cluster_clusters fd name cats st :
  clusters (merge_cluster fd name cats st) = clusters st.
Proof.
  unfold merge_cluster. revert st.
  induction cats as [|c cats IH]; intros st; [done|]. simpl. by rewrite IH.
Qed.

Lemma merge_cluster_processed fd name cats st :
  processed_categories (merge_cluster fd name cats st)
  = list_to_set cats ∪ processed_categories st.
Proof.
  unfold merge_cluster. revert st.
  induction cats as [|c cats IH]; intros st; simpl.
  - set_solver.
  - rewrite IH. simpl. set_solver.
Qed.

Lemma get_merged_category_name_cons suggest c cats :
  ∃ name, get_merged_category_name suggest (c :: cats) = Ok name.
Proof.
  unfold get_merged_category_name. case_decide; [by eexists|].
  destruct (suggest _); by eexists.
Qed.

Lemma merge_loop_clusters suggest fd all items st :
  unions_nonempty all → items ⊆ all →
  ∃ st', merge_loop suggest fd all items st = Ok st'
         ∧ (clusters st').*1
           = (clusters st).*1 ++ Spec.grouper all (processed_categories st) items.
Proof.
  intros Hall. revert st.
  induction items as [|[cat1 k1] items IH]; intros st Hsub.
  - exists st. split; [done|]. simpl. by rewrite app_nil_r.
  - assert (items ⊆ all) as Hsub' by set_solver.
    simpl. case_bool_decide as Hp.
    + rewrite decide_True by done. by apply IH.
    + rewrite decide_False by done.
      rewrite find_similar_spec; last first.
      { intros c2 k2 Hin Hne _. eapply (Hall cat1 k1 c2 k2); [set_solver|done..]. }
      simpl.
      destruct (get_merged_category_name_cons suggest cat1
        (dict_keys (filter (λ '(D, kD), D ≠ cat1 ∧ (D ∉ processed_categories st)
                                         ∧ Spec.similar k1 kD = true) all)))
        as [name ->].
      simpl.
      edestruct IH as (st' & -> & Hcl); [done|].
      eexists; split; [done|]. rewrite Hcl. simpl.
      rewrite merge_cluster_clusters, merge_cluster_processed.
      rewrite fmap_app, <- app_assoc. done.
Qed.

(** ** The keyword dictionary is the profile map, in first-seen order *)

Lemma first_seen_elem (l : list string) (x : string) :
  x ∈ Spec.first_seen l ↔ x ∈ l.
Proof.
  induction l as [|a l IH]; simpl; [done|].
  rewrite !elem_of_cons, list_elem_of_filter, IH.
  destruct (decide (x = a)); naive_solver.
Qed.

Lemma first_seen_NoDup (l : list string) : NoDup (Spec.first_seen l).
Proof.
  induction l as [|a l IH]; simpl; [constructor|].
  constructor; [|by apply NoDup_filter].
  rewrite list_elem_of_filter. naive_solver.
Qed.

Lemma first_seen_snoc (l : list string) (c : string) :
  Spec.first_seen (l ++ [c])
  = if decide (c ∈ l) then Spec.first_seen l else Spec.first_seen l ++ [c].
Proof.
  induction l as [|a l IH]; [by rewrite decide_False by apply not_elem_of_nil|].
  simpl. rewrite IH.
  destruct (decide (c ∈ l)) as [Hl|Hl], (decide (c ∈ a :: l)) as [Hal|Hal];
    try done.
  - exfalso. apply Hal. by right.
  - apply elem_of_cons in Hal as [->|?]; [|done].
    rewrite filter_app, filter_cons, decide_False by naive_solver.
    by rewrite filter_nil, app_nil_r.
  - rewrite not_elem_of_cons in Hal. destruct Hal as [Hne _].
    rewrite filter_app, filter_cons, decide_True by done.
    by rewrite filter_nil.
Qed.

Lemma profile_snoc (fd : list file_record) (r : file_record) (c : string) :
  Spec.profile (fd ++ [r]) c
  = Spec.profile fd c
    ∪ (if decide (category r = c) then list_to_set (keywords r) else ∅).
Proof.
  unfold Spec.profile. rewrite filter_app, fmap_app, union_list_app_L.
  f_equal. rewrite filter_cons, filter_nil.
  destruct (decide (category r = c)); simpl; set_solver.
Qed.

Lemma profile_absent (fd : list file_record) (c : string) :
  c ∉ category <$> fd → Spec.profile fd c = ∅.
Proof.
  intros Hc. unfold Spec.profile.
  induction fd as [|r fd IH]; [done|].
  rewrite fmap_cons, not_elem_of_cons in Hc. destruct Hc as [Hne Hc].
  rewrite filter_cons, decide_False by done. by apply IH.
Qed.

Lemma dict_update_tabulated {V : Type} (default : V) (f : V → V)
    (g : string → V) (c : string) (l : list string) :
  NoDup l →
  dict_update default f c ((λ x, (x, g x)) <$> l)
  = if decide (c ∈ l)
    then (λ x, (x, if decide (x = c) then f (g x) else g x)) <$> l
    else ((λ x, (x, g x)) <$> l) ++ [(c, f default)].
Proof.
  induction 1 as [|a l Ha Hl IH];
    [by rewrite decide_False by apply not_elem_of_nil|].
  rewrite !fmap_cons. cbn [dict_update]. destruct (decide (a = c)) as [->|Hne].
  - rewrite (decide_True (P := c ∈ c :: l)) by left.
    f_equal. apply list_fmap_ext. intros i x Hx.
    rewrite decide_False; [done|]. intros ->.
    apply Ha. by eapply list_elem_of_lookup_2.
  - rewrite IH.
    destruct (decide (c ∈ l)) as [Hcl|Hcl], (decide (c ∈ a :: l)) as [Hal|Hal];
      try done.
    + exfalso. apply Hal. by right.
    + apply elem_of_cons in Hal as [->|?]; done.
Qed.

Lemma collect_keywords_profiles (fd : list file_record) :
  collect_keywords fd = Spec.profiles fd.
Proof.
  induction fd as [|r fd IH] using rev_ind; [done|].
  unfold collect_keywords in *. rewrite foldl_snoc, IH.
  unfold Spec.profiles.
  rewrite (dict_update_tabulated _ _ (Spec.profile fd)) by apply first_seen_NoDup.
  rewrite fmap_app. simpl. rewrite first_seen_snoc.
  destruct (decide (category r ∈ category <$> fd)) as [Hin|Hin],
    (decide (category r ∈ Spec.first_seen (category <$> fd))) as [Hin'|Hin'].
  - apply list_fmap_ext. intros i c _. f_equal.
    rewrite profile_snoc. destruct (decide (c = category r)) as [->|].
    + by rewrite decide_True.
    + rewrite decide_False by done. set_solver.
  - exfalso. by apply Hin', first_seen_elem.
  - exfalso. by apply Hin, first_seen_elem.
  - rewrite fmap_app. f_equal.
    + apply list_fmap_ext. intros i c Hc. f_equal.
      rewrite profile_snoc, decide_False; [set_solver|].
      intros <-. apply Hin'. by eapply list_elem_of_lookup_2.
    + simpl. rewrite profile_snoc, decide_True by done.
      by rewrite profile_absent.
Qed.

Lemma profiles_keys (fd : list file_record) :
  dict_keys (Spec.profiles fd) = Spec.first_seen (category <$> fd).
Proof.
  unfold dict_keys, Spec.profiles. rewrite <- list_fmap_compose.
  apply list_fmap_id.
Qed.

(** ** When the similarity computation faults *)

Lemma two_members_length {A : Type} (l : list A) (x y : A) :
  x ∈ l → y ∈ l → x ≠ y → 2 ≤ length l.
Proof.
  destruct l as [|a [|b l]]; simpl; intros Hx Hy Hne; [| |lia].
  - by apply elem_of_nil in Hx.
  - apply list_elem_of_singleton in Hx, Hy. congruence.
Qed.

Lemma at_most_one_empty_unions (items : list (string * gset string)) :
  at_most_one_empty items = true → unions_nonempty items.
Proof.
  unfold at_most_one_empty. intros Hlen%bool_decide_eq_true.
  intros c1 k1 c2 k2 H1 H2 Hne Hu.
  assert (k1 = ∅ ∧ k2 = ∅) as [-> ->] by set_solver.
  pose proof (two_members_length
    (filter (λ '(_, k), k = ∅) items) (c1, ∅) (c2, ∅)) as Hfl.
  rewrite !list_elem_of_filter in Hfl.
  specialize (Hfl (conj eq_refl H1) (conj eq_refl H2)).
  assert ((c1, (∅ : gset string)) ≠ (c2, ∅)) by congruence.
  specialize (Hfl ltac:(done)). lia.
Qed.

Lemma dict_keys_unique {V : Type} (d : list (string * V)) (k : string) (v1 v2 : V) :
  NoDup (dict_keys d) → (k, v1) ∈ d → (k, v2) ∈ d → v1 = v2.
Proof.
  unfold dict_keys. induction d as [|[k' v'] d IH]; simpl; intros Hnd H1 H2.
  - by apply elem_of_nil in H1.
  - apply NoDup_cons in Hnd as [Hk' Hnd].
    assert (∀ v, (k', v) ∈ d → False) as Hfresh.
    { intros v Hv. apply Hk', list_elem_of_fmap. by exists (k', v). }
    apply elem_of_cons in H1 as [H1|H1], H2 as [H2|H2].
    + congruence.
    + injection H1 as -> _. by destruct (Hfresh v2).
    + injection H2 as -> _. by destruct (Hfresh v1).
    + by apply IH.
Qed.

Lemma find_similar_raises (cat1 X : string) (P : gset string)
    (items : list (string * gset string)) :
  (X, ∅) ∈ items → X ≠ cat1 → X ∉ P →
  find_similar cat1 ∅ P items = Raise ZeroDivisionError.
Proof.
  intros Hin Hne HP.
  induction items as [|[c2 k2] items IH]; [by apply elem_of_nil in Hin|].
  simpl. apply elem_of_cons in Hin as [[= <- <-]|Hin].
  - rewrite bool_decide_eq_true_2 by done.
    by rewrite similarity_undefined by set_solver.
  - rewrite (IH Hin). case_bool_decide; [|done].
    unfold similarity. by destruct (size _).
Qed.

Lemma merge_loop_raises suggest fd all items st (a b : string) :
  NoDup (dict_keys all) → items ⊆ all →
  (a, ∅) ∈ items → (b, ∅) ∈ all → a ≠ b →
  a ∉ processed_categories st → b ∉ processed_categories st →
  merge_loop suggest fd all items st = Raise ZeroDivisionError.
Proof.
  intros Hnd. revert st.
  induction items as [|[cat1 k1] items IH]; intros st Hsub Ha Hb Hab HPa HPb;
    [by apply elem_of_nil in Ha|].
  assert (items ⊆ all) as Hsub' by set_solver.
  assert ((cat1, k1) ∈ all) as Hcat1 by set_solver.
  assert ((a, ∅) ∈ all) as Ha' by set_solver.
  simpl. case_bool_decide as Hp.
  - apply IH; try done.
    apply elem_of_cons in Ha as [[= -> _]|Ha]; done.
  - destruct (decide (k1 = ∅)) as [->|Hk1].
    + destruct (decide (a = cat1)) as [->|Hne].
      * by rewrite (find_similar_raises cat1 b).
      * by rewrite (find_similar_raises cat1 a).
    + rewrite find_similar_spec by (intros; set_solver). simpl.
      match goal with |- context [get_merged_category_name _ (_ :: ?l)] =>
        destruct (get_merged_category_name_cons suggest cat1 l) as [name ->]
      end.
      simpl.
      assert (∀ x, (x, ∅) ∈ all → x ≠ cat1 ∧
        x ∉ dict_keys (filter (λ '(D, kD), D ≠ cat1
                ∧ (D ∉ processed_categories st)
                ∧ Spec.similar k1 kD = true) all)) as Hout.
      { intros x Hx. split.
        - intros ->. apply Hk1.
          by apply (dict_keys_unique all cat1 k1 ∅).
        - unfold dict_keys. rewrite list_elem_of_fmap.
          intros [[x' k'] [-> [(_ & _ & Hsim) Hx']%list_elem_of_filter]].
          simpl in Hx. rewrite (dict_keys_unique all x' k' ∅ Hnd Hx' Hx) in Hsim.
          unfold Spec.similar, Spec.jaccard in Hsim.
          assert (k1 ∪ ∅ = k1) as Hu by set_solver.
          assert (k1 ∩ ∅ = (∅ : gset string)) as Hi by set_solver.
          rewrite Hu, Hi, size_empty, decide_False in Hsim by done.
          done. }
      destruct (Hout a Ha') as [Hane Hams], (Hout b Hb) as [Hbne Hbms].
      apply IH; simpl; try done.
      * apply elem_of_cons in Ha as [[= -> _]|Ha]; done.
      * rewrite merge_cluster_processed. set_solver.
      * rewrite merge_cluster_processed. set_solver.
Qed.

(** ** The consolidation step, end to end *)

Lemma profiles_NoDup (fd : list file_record) : NoDup (dict_keys (Spec.profiles fd)).
Proof. rewrite profiles_keys. apply first_seen_NoDup. Qed.

Lemma merge_run_ok suggest (fd : list file_record) :
  at_most_one_empty (Spec.profiles fd) = true →
  ∃ st, merge_run suggest fd = Ok st ∧ (clusters st).*1 = Spec.clusters_of fd.
Proof.
  intros Hone%at_most_one_empty_unions.
  unfold merge_run. rewrite collect_keywords_profiles.
  by apply merge_loop_clusters.
Qed.

Lemma merge_run_raises suggest (fd : list file_record) :
  at_most_one_empty (Spec.profiles fd) = false →
  merge_run suggest fd = Raise ZeroDivisionError.
Proof.
  unfold at_most_one_empty. intros Hlen%bool_decide_eq_false.
  unfold merge_run. rewrite collect_keywords_profiles.
  pose proof (profiles_NoDup fd) as Hnd.
  set (items := Spec.profiles fd) in *.
  assert (NoDup (dict_keys (filter (λ '(_, k), k = ∅) items))) as Hnd'.
  { eapply sublist_NoDup; [exact Hnd|]. unfold dict_keys. apply fmap_sublist, sublist_filter. }
  assert (∀ x, x ∈ filter (λ '(_, k), k = ∅) items → (x.1, ∅) ∈ items) as Hmem.
  { intros [c k] [-> ?]%list_elem_of_filter. done. }
  destruct (filter (λ '(_, k), k = ∅) items) as [|x [|y l]];
    [simpl in Hlen; lia..|].
  apply (merge_loop_raises _ _ _ _ _ x.1 y.1); try done.
  - apply Hmem. left.
  - apply Hmem. right. left.
  - unfold dict_keys in Hnd'. rewrite !fmap_cons in Hnd'.
    apply NoDup_cons in Hnd' as [Hx _]. rewrite not_elem_of_cons in Hx. tauto.
Qed.

(** C1.  The specification defines the similarity of two keyword sets with
    an empty union as 0, without a fault.  The program divides by the size
    of the union without a guard: on two empty sets [similarity] raises
    [ZeroDivisionError]; so does [merge_categories] on two categories without
    keywords, whatever the naming service would answer; and so does a whole
    run, dry or not, over two files of which one could not be classified and
    the other was answered without keywords. *)
Theorem similarity_of_empty_sets_raises :
  similarity ∅ ∅ = Raise ZeroDivisionError
  ∧ (∀ suggest, merge_categories suggest two_without_keywords
                = Raise ZeroDivisionError)
  ∧ (∀ dry_run, organize_files no_keywords two_reports_fs two_reports "/out" dry_run
                = Raise ZeroDivisionError).
Proof.
  split_and!.
  - done.
  - intros suggest. unfold merge_categories. by rewrite merge_run_raises.
  - intros []; vm_compute; reflexivity.
Qed.

(** C5.  When at most one category has no keywords (otherwise the division
    of C1 faults), the clusters the program forms are those of the grouper as
    the specification words it:
    categories in first-seen order, each next unprocessed category [C]
    taking with it the unprocessed categories whose similarity to [C]
    exceeds 0.30. *)
Theorem merge_clusters_seed_neighbourhoods suggest (fd : list file_record) :
  at_most_one_empty (Spec.profiles fd) = true →
  merge_clusters suggest fd = Ok (Spec.clusters_of fd).
Proof.
  intros Hone. unfold merge_clusters.
  destruct (merge_run_ok suggest fd Hone) as (st & -> & <-). done.
Qed.

Lemma merge_clusters_seed_neighbourhoods_witness :
  at_most_one_empty (Spec.profiles scenario_A) = true
  ∧ merge_clusters (λ _, Failed) scenario_A
    = Ok [["Modeling"; "GameArt"]; ["Design"]].
Proof.
  assert (at_most_one_empty (Spec.profiles scenario_A) = true) as H
    by (vm_compute; reflexivity).
  split; [exact H|].
  rewrite (merge_clusters_seed_neighbourhoods (λ _, Failed) scenario_A H).
  vm_compute. reflexivity.
Defined.

(** C9.  The clusters depend on the records alone: two runs on the same
    records form the same clusters (or fault alike), whatever the naming
    service answers in either run. *)
Theorem merge_clusters_deterministic suggest1 suggest2 (fd : list file_record) :
  merge_clusters suggest1 fd = merge_clusters suggest2 fd.
Proof.
  unfold merge_clusters.
  destruct (at_most_one_empty (Spec.profiles fd)) eqn:Hone.
  - destruct (merge_run_ok suggest1 fd Hone) as (st1 & -> & H1).
    destruct (merge_run_ok suggest2 fd Hone) as (st2 & -> & H2).
    simpl. congruence.
  - by rewrite !merge_run_raises.
Qed.

(** ** Dictionaries *)

Section DictFacts.
Context {V : Type}.
Implicit Types (d : list (string * V)) (k : string).

Lemma dict_get_update default f k k' d :
  dict_get k (dict_update default f k' d)
  = if decide (k = k') then Some (f (from_option id default (dict_get k' d)))
    else dict_get k d.
Proof.
  induction d as [|[k0 v0] d IH]; simpl.
  - destruct (decide (k' = k)), (decide (k = k')); congruence.
  - destruct (decide (k0 = k')) as [->|Hne]; simpl.
    + destruct (decide (k' = k)), (decide (k = k')); congruence.
    + rewrite IH. destruct (decide (k0 = k)), (decide (k = k')); congruence.
Qed.

Lemma dict_keys_update default f k d :
  dict_keys (dict_update default f k d)
  = if decide (k ∈ dict_keys d) then dict_keys d else dict_keys d ++ [k].
Proof.
  unfold dict_keys. induction d as [|[k0 v0] d IH];
    [by rewrite decide_False by apply not_elem_of_nil|].
  cbn [dict_update]. destruct (decide (k0 = k)) as [->|Hne].
  - rewrite !fmap_cons. simpl. by rewrite decide_True by left.
  - rewrite !fmap_cons, IH. simpl.
    destruct (decide (k ∈ d.*1)) as [Hin|Hin].
    + by rewrite decide_True by (by right).
    + rewrite decide_False; [done|]. rewrite not_elem_of_cons. naive_solver.
Qed.

Lemma dict_keys_update_NoDup default f k d :
  NoDup (dict_keys d) → NoDup (dict_keys (dict_update default f k d)).
Proof.
  intros Hnd. rewrite dict_keys_update. case_decide; [done|].
  apply NoDup_app. split_and!; [done| |apply NoDup_singleton].
  intros x Hx ->%list_elem_of_singleton. done.
Qed.
End DictFacts.

Lemma dict_update_members (x : string * string) (name : string)
    (d : list (string * list (string * string))) :
  mjoin (dict_update [] (λ l, l ++ [x]) name d).*2 ≡ₚ mjoin d.*2 ++ [x].
Proof.
  induction d as [|[k0 v0] d IH]; simpl; [done|].
  case_decide; simpl.
  - rewrite <- !app_assoc. f_equiv. apply Permutation_app_comm.
  - rewrite IH. by rewrite app_assoc.
Qed.

Lemma dict_extend_app name files1 files2 d :
  dict_extend name (files1 ++ files2) d
  = dict_extend name files2 (dict_extend name files1 d).
Proof. unfold dict_extend. apply foldl_app. Qed.

Lemma dict_extend_keys_NoDup name files d :
  NoDup (dict_keys d) → NoDup (dict_keys (dict_extend name files d)).
Proof.
  unfold dict_extend. revert d.
  induction files as [|x files IH]; intros d Hd; simpl; [done|].
  by apply IH, dict_keys_update_NoDup.
Qed.

Lemma dict_extend_keys name files d :
  dict_keys (dict_extend name files d) ⊆ name :: dict_keys d.
Proof.
  unfold dict_extend. revert d.
  induction files as [|x files IH]; intros d; simpl; [set_solver|].
  etrans; [apply IH|]. rewrite dict_keys_update. case_decide; set_solver.
Qed.

Lemma dict_extend_get name files n d :
  default [] (dict_get n (dict_extend name files d))
  = default [] (dict_get n d) ++ (if decide (n = name) then files else []).
Proof.
  unfold dict_extend. revert d.
  induction files as [|x files IH]; intros d; simpl.
  - by case_decide; rewrite app_nil_r.
  - rewrite IH, dict_get_update. destruct (decide (n = name)) as [->|]; simpl.
    + by rewrite <- app_assoc.
    + done.
Qed.

Lemma dict_extend_members name files d :
  mjoin (dict_extend name files d).*2 ≡ₚ mjoin d.*2 ++ files.
Proof.
  unfold dict_extend. revert d.
  induction files as [|x files IH]; intros d; simpl.
  - by rewrite app_nil_r.
  - rewrite IH, dict_update_members, <- app_assoc. done.
Qed.

(** ** The merged dictionary follows the clusters *)

Lemma files_of_cons (r : file_record) (fd : list file_record) (cat : string) :
  files_of (r :: fd) cat
  = if decide (category r = cat) then (file_path r, new_name r) :: files_of fd cat
    else files_of fd cat.
Proof. unfold files_of. rewrite filter_cons. by case_decide. Qed.

Lemma append_files_extend fd name cat merged :
  append_files fd name cat merged = dict_extend name (files_of fd cat) merged.
Proof.
  unfold append_files, dict_extend. revert merged.
  induction fd as [|r fd IH]; intros merged; [done|].
  rewrite files_of_cons. simpl. rewrite IH. by case_decide.
Qed.

Lemma merge_cluster_merged fd name cats st :
  merged_categories (merge_cluster fd name cats st)
  = dict_extend name (cluster_files fd cats) (merged_categories st).
Proof.
  unfold merge_cluster, cluster_files. revert st.
  induction cats as [|c cats IH]; intros st; [done|].
  simpl. rewrite IH. simpl. by rewrite append_files_extend, dict_extend_app.
Qed.

Lemma group_files_snoc fd log cats name n :
  group_files fd (log ++ [(cats, name)]) n
  = group_files fd log n ++ (if decide (n = name) then cluster_files fd cats else []).
Proof.
  unfold group_files. rewrite filter_app, fmap_app, join_app. f_equal.
  rewrite filter_cons, filter_nil. simpl.
  destruct (decide (name = n)), (decide (n = name)); try congruence; simpl.
  - by rewrite app_nil_r.
  - done.
Qed.

Lemma consistent_step suggest fd st cats name :
  consistent suggest fd st →
  get_merged_category_name suggest cats = Ok name →
  consistent suggest fd
    {| merged_categories := merged_categories (merge_cluster fd name cats st);
       processed_categories := processed_categories (merge_cluster fd name cats st);
       clusters := clusters (merge_cluster fd name cats st) ++ [(cats, name)] |}.
Proof.
  intros [Hnd Hget Hkeys Hmem Hnames] Hname.
  split; simpl; rewrite ?merge_cluster_merged, ?merge_cluster_clusters.
  - by apply dict_extend_keys_NoDup.
  - intros n. by rewrite dict_extend_get, group_files_snoc, Hget.
  - etrans; [apply dict_extend_keys|]. rewrite fmap_app. set_solver.
  - rewrite dict_extend_members, fmap_app, join_app, Hmem. simpl.
    by rewrite app_nil_r.
  - intros cats' name' [?|[= -> ->]%list_elem_of_singleton]%elem_of_app; auto.
Qed.

Lemma merge_loop_consistent suggest fd all items st st' :
  consistent suggest fd st →
  merge_loop suggest fd all items st = Ok st' →
  consistent suggest fd st'.
Proof.
  revert st. induction items as [|[cat1 k1] items IH]; intros st Hst; simpl.
  - by intros [= <-].
  - case_bool_decide; [by apply IH|].
    destruct (find_similar _ _ _ _) as [more|]; [simpl|done].
    destruct (get_merged_category_name _ _) as [name|] eqn:Hname; [simpl|done].
    apply IH. by apply consistent_step.
Qed.

Lemma merge_run_consistent suggest fd st :
  merge_run suggest fd = Ok st → consistent suggest fd st.
Proof.
  apply merge_loop_consistent. split; simpl; try done.
  - constructor.
  - intros ?? []%elem_of_nil.
Qed.

(** ** The clusters partition the raw categories *)

Lemma filter_none {A : Type} (P : A → Prop) `{!∀ x, Decision (P x)} (l : list A) :
  (∀ x, x ∈ l → ¬ P x) → filter P l = [].
Proof.
  induction l as [|a l IH]; intros Hl; [done|].
  rewrite filter_cons_False by (apply Hl; left). apply IH.
  intros x Hx. apply Hl. by right.
Qed.

Lemma cluster_of_elem all P C kC c :
  c ∈ Spec.cluster_of all P C kC ↔
  c = C ∨ (c ≠ C ∧ (c ∉ P) ∧ ∃ kD, (c, kD) ∈ all ∧ Spec.similar kC kD = true).
Proof.
  unfold Spec.cluster_of, dict_keys.
  rewrite elem_of_cons, list_elem_of_fmap. split.
  - intros [->|[[D kD] [-> [(?&?&?) ?]%list_elem_of_filter]]]; [by left|].
    right. split_and!; [done..|]. by exists kD.
  - intros [->|(?&?&kD&?&?)]; [by left|]. right. exists (c, kD).
    split; [done|]. by apply list_elem_of_filter.
Qed.

Lemma cluster_of_NoDup all P C kC :
  NoDup (dict_keys all) → NoDup (Spec.cluster_of all P C kC).
Proof.
  intros Hnd. unfold Spec.cluster_of. constructor.
  - unfold dict_keys. rewrite list_elem_of_fmap.
    intros [[D kD] [-> [(?&_) _]%list_elem_of_filter]]. done.
  - eapply sublist_NoDup; [exact Hnd|].
    unfold dict_keys. apply fmap_sublist, sublist_filter.
Qed.

Lemma grouper_skip all P C kC todo :
  C ∈ P → Spec.grouper all P ((C, kC) :: todo) = Spec.grouper all P todo.
Proof. intros HP. simpl. by rewrite decide_True. Qed.

Lemma grouper_seed all P C kC todo :
  C ∉ P →
  Spec.grouper all P ((C, kC) :: todo)
  = Spec.cluster_of all P C kC
    :: Spec.grouper all (list_to_set (Spec.cluster_of all P C kC) ∪ P) todo.
Proof. intros HP. simpl. by rewrite decide_False. Qed.

Lemma join_cons {A : Type} (l : list A) (ls : list (list A)) :
  mjoin (l :: ls) = l ++ mjoin ls.
Proof. done. Qed.

Lemma grouper_partition all P todo :
  NoDup (dict_keys all) → todo ⊆ all →
  NoDup (mjoin (Spec.grouper all P todo))
  ∧ (∀ c, c ∈ mjoin (Spec.grouper all P todo) → (c ∉ P) ∧ c ∈ dict_keys all)
  ∧ (∀ c, c ∈ dict_keys todo → c ∈ P ∨ c ∈ mjoin (Spec.grouper all P todo)).
Proof.
  intros Hnd. revert P.
  induction todo as [|[C kC] todo IH]; intros P Hsub.
  - split_and!; [constructor|by intros ? ?%elem_of_nil..].
  - assert (todo ⊆ all) as Hsub' by set_solver.
    assert ((C, kC) ∈ all) as HC by set_solver.
    destruct (decide (C ∈ P)) as [HP|HP].
    + rewrite grouper_skip by done.
      destruct (IH P Hsub') as (IH1 & IH2 & IH3). split_and!; [done..|].
      unfold dict_keys. rewrite fmap_cons.
      intros c [->|Hc]%elem_of_cons; auto.
    + rewrite grouper_seed, join_cons by done.
      destruct (IH (list_to_set (Spec.cluster_of all P C kC) ∪ P) Hsub')
        as (IH1 & IH2 & IH3).
      unfold dict_keys at 2. rewrite fmap_cons. split_and!.
      * apply NoDup_app. split_and!; [by apply cluster_of_NoDup| |done].
        intros c Hc Hc'. apply IH2 in Hc' as [Hc' _]. set_solver.
      * intros c [Hc|Hc]%elem_of_app.
        -- apply cluster_of_elem in Hc as [->|(?&?&kD&?&?)].
           ++ split; [done|]. apply list_elem_of_fmap. by exists (C, kC).
           ++ split; [done|]. apply list_elem_of_fmap. by exists (c, kD).
        -- apply IH2 in Hc as [Hc ?]. split; [set_solver|done].
      * intros c [->|Hc]%elem_of_cons.
        -- right. apply elem_of_app. left. apply cluster_of_elem. by left.
        -- destruct (IH3 c Hc) as [Hc'|Hc']; [|right; set_solver].
           apply elem_of_union in Hc' as [Hc'|Hc']; [|by left].
           right. apply elem_of_app. left. set_solver.
Qed.

Lemma clusters_of_partition (fd : list file_record) :
  mjoin (Spec.clusters_of fd) ≡ₚ Spec.first_seen (category <$> fd).
Proof.
  destruct (grouper_partition (Spec.profiles fd) ∅ (Spec.profiles fd)
              (profiles_NoDup fd) (reflexivity _)) as (H1 & H2 & H3).
  rewrite <- profiles_keys. apply NoDup_Permutation; [done|apply profiles_NoDup|].
  intros c. split; [by intros [_ ?]%H2|].
  intros [Hc|Hc]%H3; [set_solver|done].
Qed.


(** ** The clusters partition the files *)

Lemma files_of_none (fd : list file_record) (l : list string) :
  (∀ c, c ∈ l → c ∉ category <$> fd) → mjoin (files_of fd <$> l) = [].
Proof.
  induction l as [|c l IH]; intros Hl; [done|].
  rewrite fmap_cons, join_cons, IH by set_solver. unfold files_of.
  rewrite (filter_none _ fd); [done|].
  intros r Hr Hc. apply (Hl c); [left|].
  apply list_elem_of_fmap. by exists r.
Qed.

Lemma files_of_partition (fd : list file_record) (l : list string) :
  NoDup l → (∀ r, r ∈ fd → category r ∈ l) →
  mjoin (files_of fd <$> l) ≡ₚ (λ r, (file_path r, new_name r)) <$> fd.
Proof.
  revert l. induction fd as [|r fd IH]; intros l Hnd Hall.
  - rewrite files_of_none; [done|]. intros c _ []%elem_of_nil.
  - assert (category r ∈ l) as Hr by (apply Hall; left).
    apply elem_of_Permutation in Hr as [l' Hl'].
    assert (NoDup (category r :: l')) as Hnd' by by rewrite <- Hl'.
    apply NoDup_cons in Hnd' as [Hr' Hnd'].
    rewrite fmap_cons, <- (IH l Hnd) by (intros; apply Hall; by right).
    rewrite Hl', !fmap_cons, !join_cons, files_of_cons, decide_True by done.
    simpl. do 2 f_equiv.
    assert (files_of (r :: fd) <$> l' = files_of fd <$> l') as ->; [|done].
    apply list_fmap_ext. intros i c Hc. rewrite files_of_cons, decide_False; [done|].
    intros <-. apply Hr'. by eapply list_elem_of_lookup_2.
Qed.

Lemma join_cluster_files (fd : list file_record) (log : list (list string * string)) :
  mjoin ((λ e, cluster_files fd e.1) <$> log) = mjoin (files_of fd <$> mjoin log.*1).
Proof.
  induction log as [|[cats name] log IH]; [done|].
  rewrite !fmap_cons, !join_cons, fmap_app, join_app, IH. done.
Qed.

Lemma merge_run_partitions suggest (fd : list file_record) :
  at_most_one_empty (Spec.profiles fd) = true →
  ∃ st, merge_run suggest fd = Ok st
    ∧ NoDup (mjoin (clusters st).*1)
    ∧ mjoin (clusters st).*1 ≡ₚ Spec.first_seen (category <$> fd)
    ∧ NoDup (dict_keys (merged_categories st))
    ∧ mjoin (merged_categories st).*2 ≡ₚ (λ r, (file_path r, new_name r)) <$> fd.
Proof.
  intros Hone. destruct (merge_run_ok suggest fd Hone) as (st & Hrun & Hcl).
  exists st. pose proof (merge_run_consistent _ _ _ Hrun) as [Hnd _ _ Hmem _].
  pose proof (clusters_of_partition fd) as Hpart. rewrite <- Hcl in Hpart.
  split_and!; [done| |done|done|].
  - rewrite Hpart. apply first_seen_NoDup.
  - rewrite Hmem, join_cluster_files, Hpart.
    apply files_of_partition; [apply first_seen_NoDup|].
    intros r Hr. apply first_seen_elem, list_elem_of_fmap. by exists r.
Qed.

(** C4.  When consolidation completes (it does whenever at most one category
    has no keywords), the clusters list every raw category exactly once, the
    merged groups have distinct names, and their member lists together hold
    every record exactly once. *)
Theorem consolidation_partitions suggest (fd : list file_record) :
  at_most_one_empty (Spec.profiles fd) = true →
  ∃ st, merge_run suggest fd = Ok st
    ∧ NoDup (mjoin (clusters st).*1)
    ∧ mjoin (clusters st).*1 ≡ₚ Spec.first_seen (category <$> fd)
    ∧ NoDup (dict_keys (merged_categories st))
    ∧ mjoin (merged_categories st).*2 ≡ₚ (λ r, (file_path r, new_name r)) <$> fd.
Proof. apply merge_run_partitions. Qed.

Lemma consolidation_partitions_witness :
  at_most_one_empty (Spec.profiles scenario_A) = true
  ∧ ∃ st, merge_run (λ _, Failed) scenario_A = Ok st
      ∧ NoDup (mjoin (clusters st).*1)
      ∧ mjoin (clusters st).*1 ≡ₚ Spec.first_seen (category <$> scenario_A)
      ∧ NoDup (dict_keys (merged_categories st))
      ∧ mjoin (merged_categories st).*2
        ≡ₚ (λ r, (file_path r, new_name r)) <$> scenario_A.
Proof.
  assert (at_most_one_empty (Spec.profiles scenario_A) = true) as H
    by (vm_compute; reflexivity).
  split; [exact H|]. exact (consolidation_partitions (λ _, Failed) scenario_A H).
Defined.



(** C10.  The merged groups are keyed by display name: the names are
    distinct, the group of a name holds the files of every cluster that was
    given that name, in the order of the clusters, and so there are at most
    as many groups as clusters; with [media_files] and a naming service that
    answers [Media], two clusters end up in one group. *)
Theorem groups_keyed_by_display_name :
  (∀ suggest fd st, merge_run suggest fd = Ok st →
     NoDup (dict_keys (merged_categories st))
     ∧ (∀ name, default [] (dict_get name (merged_categories st))
                = group_files fd (clusters st) name)
     ∧ length (merged_categories st) ≤ length (clusters st))
  ∧ (∃ suggest fd st, merge_run suggest fd = Ok st
       ∧ length (merged_categories st) < length (clusters st)).
Proof.
  split.
  - intros suggest fd st Hrun.
    pose proof (merge_run_consistent _ _ _ Hrun) as [Hnd Hget Hkeys _ _].
    split_and!; [done..|].
    rewrite <- (length_fmap fst), <- (length_fmap snd (clusters st)).
    apply submseteq_length, NoDup_submseteq; done.
  - exists always_media, media_files.
    destruct (merge_run always_media media_files) as [st|] eqn:Hrun;
      [|by vm_compute in Hrun].
    exists st. split; [done|].
    vm_compute in Hrun. injection Hrun as <-. simpl. lia.
Qed.

Lemma groups_keyed_by_display_name_witness :
  ∃ st, merge_run always_media media_files = Ok st
    ∧ NoDup (dict_keys (merged_categories st))
    ∧ (∀ name, default [] (dict_get name (merged_categories st))
               = group_files media_files (clusters st) name)
    ∧ length (merged_categories st) ≤ length (clusters st).
Proof.
  destruct (merge_run always_media media_files) as [st|] eqn:Hrun;
    [|by vm_compute in Hrun].
  exists st. split; [done|].
  exact (proj1 groups_keyed_by_display_name always_media media_files st Hrun).
Defined.

(** ** [analyze_filename] and the first loop *)

Lemma append_cons (a : ascii) (s t : string) :
  String a s +:+ t = String a (s +:+ t).
Proof. done. Qed.

Lemma append_empty_r (s : string) : s +:+ EmptyString = s.
Proof. induction s as [|a s IH]; [done|]. by rewrite append_cons, IH. Qed.

Lemma str_take_drop (n : nat) (s : string) : str_take n s +:+ str_drop n s = s.
Proof.
  revert s. induction n as [|n IH]; intros [|a s]; simpl; try done.
  by rewrite append_cons, IH.
Qed.

Lemma splitext_join (p : string) : (splitext p).1 +:+ (splitext p).2 = p.
Proof.
  unfold splitext. case_match; simpl.
  - apply str_take_drop.
  - apply append_empty_r.
Qed.

Lemma analyze_filename_failed (llm : string → reply) (filename : string) :
  llm (splitext filename).1 = Failed →
  analyze_filename llm filename = ("Misc", filename, []).
Proof.
  unfold analyze_filename. destruct (splitext filename) as [name ext]. simpl.
  by intros ->.
Qed.

(** An answer without any of the three labels is not a failure: the
    category and the keywords fall back, and the new name is the old stem
    with the illegal characters deleted. *)
Lemma analyze_filename_unlabelled (llm : string → reply) (filename result : string) :
  llm (splitext filename).1 = Content result →
  re_search "CATEGORY:" result = None →
  re_search "KEYWORDS:" result = None →
  re_search "NEWNAME:" result = None →
  analyze_filename llm filename
  = ("Misc", sanitize (splitext filename).1 +:+ (splitext filename).2, []).
Proof.
  unfold analyze_filename. destruct (splitext filename) as [name ext]. simpl.
  by intros -> -> -> ->.
Qed.

Lemma collect_step_record classify fs (data : list file_record) (n : nat) p :
  collect_step classify fs (data, n) p
  = if is_file fs p && negb (excluded p)
    then (data ++ [record_of (classify n) p], S n) else (data, n).
Proof.
  unfold collect_step, record_of. case_match; [|done].
  by destruct (analyze_filename _ _) as [[??]?].
Qed.

Lemma discovered_cons fs (p : string) (listing : list string) :
  discovered fs (p :: listing)
  = if is_file fs p && negb (excluded p) then p :: discovered fs listing
    else discovered fs listing.
Proof.
  unfold discovered. rewrite filter_cons.
  destruct (is_file fs p && negb (excluded p)); by case_decide.
Qed.

Lemma collect_spec classify fs (listing : list string) (data : list file_record) :
  foldl (collect_step classify fs) (data, length data) listing
  = (data ++ imap (λ i p, record_of (classify (length data + i)) p)
               (discovered fs listing),
     length data + length (discovered fs listing)).
Proof.
  revert data. induction listing as [|p listing IH]; intros data.
  - simpl. by rewrite app_nil_r, Nat.add_0_r.
  - cbn [foldl]. rewrite collect_step_record, discovered_cons.
    destruct (is_file fs p && negb (excluded p)) eqn:Hp.
    + replace (S (length data)) with (length (data ++ [record_of (classify (length data)) p]))
        by (rewrite length_app; simpl; lia).
      rewrite IH, imap_cons, Nat.add_0_r, <- app_assoc, !length_app. simpl.
      f_equal; [|lia]. do 2 f_equal.
      apply imap_ext. intros i x _. simpl. do 2 f_equal. lia.
    + apply IH.
Qed.

Lemma record_of_path llm p : file_path (record_of llm p) = p.
Proof. unfold record_of. by destruct (analyze_filename _ _) as [[??]?]. Qed.


(** ** The [while] loop that looks for a free destination *)










(** ** The third phase *)

Lemma place_file_cases w dry_run cat cp st (f : string * string) :
  let dest := resolve_destination (fs st) cp f.2 in
  let st' := place_file w dry_run cat cp st f in
  (dry_run = true ∧ fs st' = fs st ∧ run_stats st' = run_stats st
   ∧ trace st' = trace st ++ [MkDecision cat f.1 dest WouldMove])
  ∨ (dry_run = false
     ∧ shutil_move (move_fails w) f.1 dest (fs st) = Some (fs st')
     ∧ run_stats st' = Stats (processed (run_stats st)) (S (moved (run_stats st)))
                             (errors (run_stats st))
     ∧ trace st' = trace st ++ [MkDecision cat f.1 dest Moved])
  ∨ (dry_run = false
     ∧ shutil_move (move_fails w) f.1 dest (fs st) = None ∧ fs st' = fs st
     ∧ run_stats st' = Stats (processed (run_stats st)) (moved (run_stats st))
                             (S (errors (run_stats st)))
     ∧ trace st' = trace st ++ [MkDecision cat f.1 dest MoveFailed]).
Proof.
  destruct f as [source_path new_name], st as [fs0 [p m e] tr]. simpl.
  destruct dry_run; [by left|]. right.
  destruct (shutil_move _ _ _ _) eqn:Hmv; [left|right]; done.
Qed.

(** An invariant of the third phase is one that creating a directory and
    placing the next file preserve. *)
Lemma organize_groups_invariant w target dry_run
    (I : list (string * string) → run_state → Prop) :
  (∀ rem st p fs', dry_run = false → mkdir p (fs st) = Ok fs' →
      I rem st → I rem (RunState fs' (run_stats st) (trace st))) →
  (∀ cat f rem st, I (f :: rem) st →
      I rem (place_file w dry_run cat (path_join target cat) st f)) →
  ∀ groups st st',
    I (mjoin groups.*2) st →
    organize_groups w target dry_run groups st = Ok st' → I [] st'.
Proof.
  intros Hmkdir Hplace.
  assert (∀ cat files rem st,
            I (files ++ rem) st →
            I rem (foldl (place_file w dry_run cat (path_join target cat)) st files))
    as Hfold.
  { intros cat files. induction files as [|f files IH]; intros rem st Hst;
      [done|]. simpl. by apply IH, Hplace. }
  induction groups as [|[cat files] groups IH]; intros st st' Hst; simpl.
  - by intros [= <-].
  - destruct dry_run.
    + simpl. apply IH, Hfold. by destruct st.
    + destruct (mkdir _ _) as [fs'|] eqn:Hmk; [simpl|done].
      apply IH, Hfold. by eapply Hmkdir.
Qed.












(** ** The run as a whole *)

Lemma merge_run_Ok_defined suggest (fd : list file_record) st :
  merge_run suggest fd = Ok st → at_most_one_empty (Spec.profiles fd) = true.
Proof.
  intros Hrun. destruct (at_most_one_empty _) eqn:Hone; [done|].
  by rewrite merge_run_raises in Hrun.
Qed.

Lemma merge_categories_members suggest (fd : list file_record) merged :
  merge_categories suggest fd = Ok merged →
  mjoin merged.*2 ≡ₚ (λ r, (file_path r, new_name r)) <$> fd.
Proof.
  unfold merge_categories. destruct (merge_run suggest fd) as [st|] eqn:Hrun; [|done].
  simpl. intros [= <-].
  destruct (merge_run_partitions suggest fd (merge_run_Ok_defined _ _ _ Hrun))
    as (st' & Hrun' & _ & _ & _ & Hmem).
  rewrite Hrun in Hrun'. by injection Hrun' as ->.
Qed.

Lemma mkdir_discovered p fs fs' (listing : list string) :
  mkdir p fs = Ok fs' → discovered fs' listing = discovered fs listing.
Proof.
  intros Hmk. unfold discovered. apply list_filter_iff. intros q.
  assert (is_file fs' q = is_file fs q) as ->; [|done].
  unfold mkdir in Hmk. destruct (fs !! p) as [[]|] eqn:Hp; simplify_eq; [done|].
  unfold is_file. destruct (decide (p = q)) as [->|].
  - rewrite lookup_insert_eq, Hp. by rewrite !bool_decide_eq_false_2.
  - by rewrite lookup_insert_ne.
Qed.


(** The three phases of a run that completes. *)
Lemma organize_files_Ok w fs0 (listing : list string) target dry_run st :
  organize_files w fs0 listing target dry_run = Ok st →
  ∃ fs1 all_file_data merged,
    (if dry_run then fs1 = fs0 else mkdir target fs0 = Ok fs1)
    ∧ discovered fs1 listing = discovered fs0 listing
    ∧ file_path <$> all_file_data = discovered fs0 listing
    ∧ merge_categories (suggest w) all_file_data = Ok merged
    ∧ organize_groups w target dry_run merged
        (RunState fs1 (Stats (length (discovered fs0 listing)) 0 0) []) = Ok st.
Proof.
  unfold organize_files.
  destruct (if dry_run then Ok fs0 else mkdir target fs0) as [fs1|] eqn:Hfs1;
    [simpl|done].
  assert ((if dry_run then fs1 = fs0 else mkdir target fs0 = Ok fs1)
          ∧ discovered fs1 listing = discovered fs0 listing) as [H1 Hdisc].
  { destruct dry_run; [by injection Hfs1 as ->|].
    split; [done|]. by eapply mkdir_discovered. }
  pose proof (collect_spec (classify w) fs1 listing []) as Hcollect.
  simpl in Hcollect. rewrite Hcollect, Hdisc.
  destruct (merge_categories _ _) as [merged|] eqn:Hmerge; [simpl|done].
  intros Hrun. eexists fs1, _, merged. split_and!; [done..| |done|done].
  rewrite fmap_imap.
  rewrite (imap_ext _ (const id)) by (intros; simpl; apply record_of_path).
  by rewrite imap_const, list_fmap_id.
Qed.








(** C2.  The specification asks for the same decisions in a dry run and in
    a real run.  With both services down, two files named [draft.txt] go to the
    group [Misc]: the real run resolves them to [draft.txt] and
    [draft_1.txt], the dry run, which consults a file system it never
    changes, reports [draft.txt] for both. *)
Theorem dry_run_decisions_differ :
  ∃ st_dry st_real,
    organize_files service_down two_drafts_fs two_drafts "/out" true = Ok st_dry
    ∧ organize_files service_down two_drafts_fs two_drafts "/out" false = Ok st_real
    ∧ decisions st_dry = [("Misc", "/out/Misc/draft.txt");
                          ("Misc", "/out/Misc/draft.txt")]
    ∧ decisions st_real = [("Misc", "/out/Misc/draft.txt");
                           ("Misc", "/out/Misc/draft_1.txt")]
    ∧ decisions st_dry ≠ decisions st_real.
Proof.
  destruct (organize_files service_down two_drafts_fs two_drafts "/out" true)
    as [st_dry|] eqn:Hdry; [|by vm_compute in Hdry].
  destruct (organize_files service_down two_drafts_fs two_drafts "/out" false)
    as [st_real|] eqn:Hreal; [|by vm_compute in Hreal].
  exists st_dry, st_real. split_and!; [done..| | |].
  - vm_compute in Hdry. by injection Hdry as <-.
  - vm_compute in Hreal. by injection Hreal as <-.
  - vm_compute in Hdry, Hreal. injection Hdry as <-. injection Hreal as <-.
    vm_compute. congruence.
Qed.

(** * Further properties of the program *)

(** ** Similarity *)

Lemma similarity_value (k1 k2 : gset string) (q : Q) :
  similarity k1 k2 = Ok q →
  q = (Z.of_nat (size (k1 ∩ k2)) # Pos.of_nat (size (k1 ∪ k2)))
  ∧ 0 < size (k1 ∪ k2).
Proof.
  unfold similarity. destruct (size (k1 ∪ k2)) eqn:Hu; [done|].
  intros [= <-]. split; [done|lia].
Qed.

Lemma Zpos_of_nat (n : nat) : 0 < n → Z.pos (Pos.of_nat n) = Z.of_nat n.
Proof.
  intros Hn. rewrite <- (Nat2Pos.id n) at 2 by lia.
  by rewrite positive_nat_Z.
Qed.

(** X1.  When the similarity of two keyword sets is defined, it does not
    depend on their order, it lies between 0 and 1, it is 1 exactly when the
    sets are equal and 0 exactly when they share no keyword. *)
Theorem similarity_is_a_jaccard_index (k1 k2 : gset string) (q : Q) :
  similarity k1 k2 = Ok q →
  similarity k2 k1 = Ok q
  ∧ (0 <= q)%Q ∧ (q <= 1)%Q
  ∧ ((q == 1)%Q ↔ k1 = k2)
  ∧ ((q == 0)%Q ↔ k1 ## k2).
Proof.
  intros Hq. pose proof Hq as [-> Hu]%similarity_value.
  assert (size (k1 ∩ k2) ≤ size (k1 ∪ k2)) as Hle
    by (apply subseteq_size; set_solver).
  split_and!.
  - by rewrite similarity_sym.
  - unfold Qle. simpl. lia.
  - unfold Qle. simpl. rewrite Zpos_of_nat by done. lia.
  - unfold Qeq. simpl. rewrite Zpos_of_nat by done. split.
    + intros Heq. assert (size (k1 ∪ k2) ≤ size (k1 ∩ k2)) as Hge by lia.
      assert (k1 ∩ k2 ≡ k1 ∪ k2) as Hsets
        by (apply set_subseteq_size_equiv; [set_solver|done]).
      set_solver.
    + intros ->. assert (k2 ∩ k2 = k2 ∪ k2) as -> by set_solver. lia.
  - unfold Qeq. simpl. split.
    + intros Hz. assert (size (k1 ∩ k2) = 0) as Hs%size_empty_iff by lia.
      set_solver.
    + intros Hdisj. assert (k1 ∩ k2 = ∅) as -> by set_solver.
      rewrite size_empty. lia.
Qed.

Lemma similarity_is_a_jaccard_index_witness :
  similarity {["3d"; "render"; "character"]} {["3d"; "render"; "game"]} = Ok (2 # 4)
  ∧ similarity {["3d"; "render"; "game"]} {["3d"; "render"; "character"]} = Ok (2 # 4)
  ∧ (0 <= 2 # 4)%Q ∧ (2 # 4 <= 1)%Q.
Proof.
  assert (similarity {["3d"; "render"; "character"]} {["3d"; "render"; "game"]}
          = Ok (2 # 4)) as H by (vm_compute; reflexivity).
  split; [exact H|].
  destruct (similarity_is_a_jaccard_index _ _ _ H) as (H1 & H2 & H3 & _).
  by split_and!.
Defined.

(** ** When consolidation faults *)

Lemma two_empty_profiles (items : list (string * gset string)) :
  NoDup (dict_keys items) →
  at_most_one_empty items = false
  ↔ ∃ c1 c2, c1 ≠ c2 ∧ (c1, ∅) ∈ items ∧ (c2, ∅) ∈ items.
Proof.
  intros Hnd. split.
  - unfold at_most_one_empty. intros Hlen%bool_decide_eq_false.
    assert (NoDup (dict_keys (filter (λ '(_, k), k = ∅) items))) as Hnd'.
    { eapply sublist_NoDup; [exact Hnd|].
      unfold dict_keys. apply fmap_sublist, sublist_filter. }
    assert (∀ x, x ∈ filter (λ '(_, k), k = ∅) items → (x.1, ∅) ∈ items) as Hmem.
    { intros [c k] [-> ?]%list_elem_of_filter. done. }
    destruct (filter (λ '(_, k), k = ∅) items) as [|x [|y l]];
      [simpl in Hlen; lia..|].
    exists x.1, y.1. split_and!.
    + unfold dict_keys in Hnd'. rewrite !fmap_cons in Hnd'.
      apply NoDup_cons in Hnd' as [Hx _]. rewrite not_elem_of_cons in Hx. tauto.
    + apply Hmem. left.
    + apply Hmem. right. left.
  - intros (c1 & c2 & Hne & H1 & H2).
    destruct (at_most_one_empty items) eqn:Hone; [|done].
    apply at_most_one_empty_unions in Hone.
    destruct (Hone c1 ∅ c2 ∅ H1 H2 Hne). set_solver.
Qed.

Lemma profiles_elem (fd : list file_record) (c : string) (k : gset string) :
  (c, k) ∈ Spec.profiles fd ↔ c ∈ category <$> fd ∧ k = Spec.profile fd c.
Proof.
  unfold Spec.profiles. rewrite list_elem_of_fmap. split.
  - intros (c' & [= -> ->] & Hc). split; [|done].
    by apply (proj1 (first_seen_elem _ _)) in Hc.
  - intros [Hc ->]. exists c. split; [done|]. by apply first_seen_elem.
Qed.

(** X2.  [merge_categories] raises [ZeroDivisionError] exactly when two
    different categories both have no keyword at all, and it never raises
    anything else. *)
Theorem merge_categories_raises_exactly suggest (fd : list file_record) :
  (merge_categories suggest fd = Raise ZeroDivisionError
   ↔ ∃ c1 c2, c1 ≠ c2
       ∧ c1 ∈ category <$> fd ∧ Spec.profile fd c1 = ∅
       ∧ c2 ∈ category <$> fd ∧ Spec.profile fd c2 = ∅)
  ∧ (∀ e, merge_categories suggest fd = Raise e → e = ZeroDivisionError).
Proof.
  pose proof (two_empty_profiles (Spec.profiles fd) (profiles_NoDup fd)) as Htwo.
  unfold merge_categories.
  destruct (at_most_one_empty (Spec.profiles fd)) eqn:Hone.
  - destruct (merge_run_ok suggest fd Hone) as (st & -> & _). simpl.
    split; [|done]. split; [done|].
    intros (c1 & c2 & Hne & Hc1 & Hp1 & Hc2 & Hp2).
    assert (true = false); [|done]. apply Htwo. exists c1, c2.
    split_and!; [done|apply profiles_elem..]; done.
  - rewrite merge_run_raises by done. simpl. split; [|by intros e [= <-]].
    split; [intros _|done].
    destruct (proj1 Htwo eq_refl) as (c1 & c2 & Hne & H1 & H2).
    apply profiles_elem in H1 as [? ?], H2 as [? ?]. by exists c1, c2.
Qed.

(** ** Categories without keywords *)

Lemma similar_empty_l (k : gset string) : Spec.similar ∅ k = false.
Proof.
  unfold Spec.similar, Spec.jaccard.
  destruct (decide (∅ ∪ k = ∅)); [done|].
  assert (∅ ∩ k = (∅ : gset string)) as -> by set_solver.
  by rewrite size_empty.
Qed.

Lemma similar_empty_r (k : gset string) : Spec.similar k ∅ = false.
Proof.
  unfold Spec.similar, Spec.jaccard.
  destruct (decide (k ∪ ∅ = ∅)); [done|].
  assert (k ∩ ∅ = (∅ : gset string)) as -> by set_solver.
  by rewrite size_empty.
Qed.

Lemma grouper_cluster_seed all P todo cats :
  cats ∈ Spec.grouper all P todo →
  ∃ C kC P', (C, kC) ∈ todo ∧ cats = Spec.cluster_of all P' C kC.
Proof.
  revert P. induction todo as [|[C kC] todo IH]; intros P.
  - by intros ?%elem_of_nil.
  - destruct (decide (C ∈ P)) as [HP|HP];
      [rewrite grouper_skip by done|rewrite grouper_seed by done].
    + intros (C' & kC' & P' & ? & ?)%IH. exists C', kC', P'. split; [by right|done].
    + intros [->|(C' & kC' & P' & ? & ?)%IH]%elem_of_cons.
      * exists C, kC, P. split; [left|done].
      * exists C', kC', P'. split; [by right|done].
Qed.

(** X3.  A category without any keyword is never clustered with another
    one: in a consolidation that completes it is the only member of its
    cluster. *)
Theorem keywordless_category_stays_alone suggest (fd : list file_record) st
    (cats : list string) (name c : string) :
  merge_run suggest fd = Ok st →
  (cats, name) ∈ clusters st → c ∈ cats → Spec.profile fd c = ∅ →
  cats = [c].
Proof.
  intros Hrun Hin Hc Hprof.
  destruct (merge_run_ok suggest fd (merge_run_Ok_defined _ _ _ Hrun))
    as (st' & Hrun' & Hcl).
  rewrite Hrun in Hrun'. injection Hrun' as <-.
  assert (cats ∈ Spec.clusters_of fd) as Hcats.
  { rewrite <- Hcl. apply list_elem_of_fmap. by exists (cats, name). }
  apply grouper_cluster_seed in Hcats as (C & kC & P' & [HC ->]%profiles_elem & ->).
  apply cluster_of_elem in Hc as [->|(Hne & _ & kD & [_ ->]%profiles_elem & Hsim)].
  - unfold Spec.cluster_of. f_equal. rewrite Hprof.
    unfold dict_keys. rewrite (filter_none _ (Spec.profiles fd)); [done|].
    intros [D kD] _ (_ & _ & Hsim). by rewrite similar_empty_l in Hsim.
  - by rewrite Hprof, similar_empty_r in Hsim.
Qed.

Lemma keywordless_category_stays_alone_witness :
  ∃ st, merge_run (λ _, Failed) misc_and_documents = Ok st
    ∧ (["Misc"], "Misc") ∈ clusters st
    ∧ "Misc" ∈ ["Misc"]
    ∧ Spec.profile misc_and_documents "Misc" = ∅
    ∧ ["Misc"] = ["Misc"].
Proof.
  destruct (merge_run (λ _, Failed) misc_and_documents) as [st|] eqn:Hrun;
    [|by vm_compute in Hrun].
  assert ((["Misc"], "Misc") ∈ clusters st) as Hin.
  { vm_compute in Hrun. injection Hrun as <-. simpl. left. }
  assert ("Misc" ∈ ["Misc"]) as Hc by left.
  assert (Spec.profile misc_and_documents "Misc" = ∅) as Hp
    by (vm_compute; reflexivity).
  exists st. split_and!; [done..|].
  exact (keywordless_category_stays_alone _ _ _ _ _ _ Hrun Hin Hc Hp).
Defined.

(** ** The order of the merged groups *)

Lemma dict_extend_keys_old name files (d : list (string * list (string * string))) :
  name ∈ dict_keys d → dict_keys (dict_extend name files d) = dict_keys d.
Proof.
  unfold dict_extend. revert d.
  induction files as [|x files IH]; intros d Hin; [done|].
  cbn [foldl]. rewrite IH; rewrite dict_keys_update, decide_True; done.
Qed.

Lemma dict_extend_keys_new name files (d : list (string * list (string * string))) :
  files ≠ [] →
  dict_keys (dict_extend name files d)
  = if decide (name ∈ dict_keys d) then dict_keys d else dict_keys d ++ [name].
Proof.
  intros Hne. destruct files as [|x files]; [done|].
  change (dict_extend name (x :: files) d)
    with (dict_extend name files (dict_update [] (λ l, l ++ [x]) name d)).
  rewrite dict_extend_keys_old; rewrite dict_keys_update; case_decide; try done.
  apply elem_of_app. right. left.
Qed.

Lemma files_of_nonempty (fd : list file_record) (c : string) :
  c ∈ category <$> fd → files_of fd c ≠ [].
Proof.
  intros (r & -> & Hr)%list_elem_of_fmap. unfold files_of.
  intros Hnil%fmap_nil_inv.
  eapply (filter_nil_not_elem_of _ _ r) in Hnil; done.
Qed.

Lemma merge_loop_keys suggest fd all items st st' :
  (∀ c k, (c, k) ∈ items → c ∈ category <$> fd) →
  dict_keys (merged_categories st) = Spec.first_seen (clusters st).*2 →
  merge_loop suggest fd all items st = Ok st' →
  dict_keys (merged_categories st') = Spec.first_seen (clusters st').*2.
Proof.
  revert st. induction items as [|[cat1 k1] items IH]; intros st Hcats Hst; simpl.
  - by intros [= <-].
  - assert (∀ c k, (c, k) ∈ items → c ∈ category <$> fd) as Hcats'
      by (intros; eapply Hcats; by right).
    case_bool_decide; [by apply IH|].
    destruct (find_similar _ _ _ _) as [more|]; [simpl|done].
    destruct (get_merged_category_name _ _) as [name|] eqn:Hname; [simpl|done].
    apply IH; [done|]. simpl.
    rewrite merge_cluster_merged, merge_cluster_clusters, fmap_app.
    simpl. rewrite first_seen_snoc, <- Hst.
    rewrite dict_extend_keys_new; last first.
    { unfold cluster_files. rewrite fmap_cons, join_cons.
      intros [Hnil _]%app_eq_nil. revert Hnil. apply files_of_nonempty.
      eapply Hcats. left. }
    destruct (decide (name ∈ dict_keys (merged_categories st))) as [Hin|Hin],
      (decide (name ∈ (clusters st).*2)) as [Hin'|Hin']; try done.
    + destruct Hin'. rewrite Hst in Hin.
      by apply (proj1 (first_seen_elem _ _)) in Hin.
    + destruct Hin. rewrite Hst. by apply first_seen_elem.
Qed.

(** X4.  The merged groups stand in the order in which their names were
    first given to a cluster: a cluster that is given a name already in use
    adds its files to the existing group and opens no new one. *)
Theorem groups_in_order_of_first_naming suggest (fd : list file_record) st :
  merge_run suggest fd = Ok st →
  dict_keys (merged_categories st) = Spec.first_seen (clusters st).*2.
Proof.
  unfold merge_run. rewrite collect_keywords_profiles.
  apply merge_loop_keys; [|done].
  intros c k [? _]%profiles_elem. done.
Qed.

Lemma groups_in_order_of_first_naming_witness :
  ∃ st, merge_run always_media media_files = Ok st
    ∧ (clusters st).*2 = ["Media"; "Media"]
    ∧ dict_keys (merged_categories st) = Spec.first_seen (clusters st).*2.
Proof.
  destruct (merge_run always_media media_files) as [st|] eqn:Hrun;
    [|by vm_compute in Hrun].
  exists st. split; [done|].
  split; [|exact (groups_in_order_of_first_naming _ _ _ Hrun)].
  vm_compute in Hrun. by injection Hrun as <-.
Defined.

(** ** Categories that have nothing in common *)

Lemma all_apart_spec (items : list (string * gset string)) :
  all_apart items = true →
  ∀ c1 k1 c2 k2, (c1, k1) ∈ items → (c2, k2) ∈ items → c1 ≠ c2 →
    k1 ∪ k2 ≠ ∅ ∧ Spec.similar k1 k2 = false.
Proof.
  unfold all_apart. rewrite forallb_forall.
  intros Hall c1 k1 c2 k2 H1%list_elem_of_In H2%list_elem_of_In Hne.
  specialize (Hall _ H1). simpl in Hall. rewrite forallb_forall in Hall.
  specialize (Hall _ H2). simpl in Hall.
  apply orb_true_iff in Hall as [Heq%bool_decide_eq_true|Hall]; [done|].
  apply andb_true_iff in Hall as [Hu%negb_true_iff%bool_decide_eq_false Hs%negb_true_iff].
  done.
Qed.

Lemma dict_update_old {V : Type} (default : V) (f : V → V) (k : string) (v : V)
    (d : list (string * V)) :
  k ∉ dict_keys d →
  dict_update default f k (d ++ [(k, v)]) = d ++ [(k, f v)].
Proof.
  unfold dict_keys. induction d as [|[k' v'] d IH]; intros Hk.
  - simpl. by rewrite decide_True.
  - rewrite fmap_cons, not_elem_of_cons in Hk. destruct Hk as [Hne Hk].
    simpl. rewrite decide_False by done. by rewrite IH.
Qed.

Lemma dict_update_fresh {V : Type} (default : V) (f : V → V) (k : string)
    (d : list (string * V)) :
  k ∉ dict_keys d → dict_update default f k d = d ++ [(k, f default)].
Proof.
  unfold dict_keys. induction d as [|[k' v'] d IH]; intros Hk; [done|].
  rewrite fmap_cons, not_elem_of_cons in Hk. destruct Hk as [Hne Hk].
  simpl. rewrite decide_False by done. by rewrite IH.
Qed.

Lemma dict_extend_old name files l (d : list (string * list (string * string))) :
  name ∉ dict_keys d →
  dict_extend name files (d ++ [(name, l)]) = d ++ [(name, l ++ files)].
Proof.
  intros Hk. unfold dict_extend. revert l.
  induction files as [|x files IH]; intros l; simpl.
  - by rewrite app_nil_r.
  - rewrite dict_update_old by done. by rewrite IH, <- app_assoc.
Qed.

Lemma dict_extend_fresh name files (d : list (string * list (string * string))) :
  name ∉ dict_keys d → files ≠ [] →
  dict_extend name files d = d ++ [(name, files)].
Proof.
  intros Hk Hne. destruct files as [|x files]; [done|].
  change (dict_extend name (x :: files) d)
    with (dict_extend name files (dict_update [] (λ l, l ++ [x]) name d)).
  rewrite dict_update_fresh by done. by rewrite dict_extend_old.
Qed.

Lemma merge_loop_apart suggest fd pre items st :
  NoDup (dict_keys (pre ++ items)) →
  (∀ c1 k1 c2 k2, (c1, k1) ∈ pre ++ items → (c2, k2) ∈ pre ++ items → c1 ≠ c2 →
     k1 ∪ k2 ≠ ∅ ∧ Spec.similar k1 k2 = false) →
  (∀ c k, (c, k) ∈ pre ++ items → files_of fd c ≠ []) →
  merged_categories st = (λ c, (c, files_of fd c)) <$> dict_keys pre →
  processed_categories st = list_to_set (dict_keys pre) →
  ∃ st', merge_loop suggest fd (pre ++ items) items st = Ok st'
    ∧ merged_categories st'
      = (λ c, (c, files_of fd c)) <$> dict_keys (pre ++ items).
Proof.
  revert pre st. induction items as [|[cat1 k1] items IH];
    intros pre st Hnd Hapart Hfiles Hmerged Hproc.
  - exists st. split; [done|]. by rewrite app_nil_r.
  - assert (pre ++ (cat1, k1) :: items = (pre ++ [(cat1, k1)]) ++ items) as Heq
      by by rewrite <- app_assoc.
    assert (cat1 ∉ dict_keys pre) as Hfresh.
    { unfold dict_keys in *. rewrite fmap_app, fmap_cons in Hnd.
      apply NoDup_app in Hnd as (_ & Hnd & _). intros Hin.
      apply (Hnd _ Hin). left. }
    cbn [merge_loop]. rewrite bool_decide_eq_false_2
      by (rewrite Hproc, elem_of_list_to_set; done).
    rewrite find_similar_spec; last first.
    { intros c2 k2 Hin Hne _. eapply (Hapart cat1 k1 c2 k2); [set_solver|done..]. }
    rewrite (filter_none _ (pre ++ (cat1, k1) :: items)); last first.
    { intros [D kD] HD (Hne & _ & Hsim).
      destruct (Hapart cat1 k1 D kD) as [_ Hs]; [set_solver|done..|congruence]. }
    simpl.
    rewrite Heq. apply IH.
    + by rewrite <- Heq.
    + by rewrite <- Heq.
    + by rewrite <- Heq.
    + simpl. unfold merge_cluster. simpl.
      rewrite append_files_extend, Hmerged.
      rewrite dict_extend_fresh; last first.
      { apply (Hfiles cat1 k1). set_solver. }
      { unfold dict_keys. rewrite <- list_fmap_compose.
        by rewrite list_fmap_id. }
      unfold dict_keys. by rewrite !fmap_app.
    + simpl. unfold merge_cluster. simpl. rewrite Hproc.
      unfold dict_keys. rewrite fmap_app. simpl. set_solver.
Qed.

Lemma merge_categories_of_apart suggest (fd : list file_record) :
  (∀ c1 k1 c2 k2, (c1, k1) ∈ Spec.profiles fd → (c2, k2) ∈ Spec.profiles fd →
     c1 ≠ c2 → k1 ∪ k2 ≠ ∅ ∧ Spec.similar k1 k2 = false) →
  merge_categories suggest fd
  = Ok ((λ c, (c, files_of fd c)) <$> Spec.first_seen (category <$> fd)).
Proof.
  intros Hapart.
  unfold merge_categories, merge_run. rewrite collect_keywords_profiles.
  destruct (merge_loop_apart suggest fd [] (Spec.profiles fd)
              {| merged_categories := []; processed_categories := ∅; clusters := [] |})
    as (st & Hrun & Hst).
  - apply profiles_NoDup.
  - exact Hapart.
  - intros c k [Hc _]%profiles_elem. by apply files_of_nonempty.
  - done.
  - done.
  - change ([] ++ Spec.profiles fd) with (Spec.profiles fd) in Hrun, Hst.
    rewrite Hrun. simpl. by rewrite Hst, profiles_keys.
Qed.

(** X5.  When no two different categories are similar and at most one of
    them lacks keywords, consolidation changes nothing: every raw category
    becomes a group under its own name, in first-seen order, with its files
    in the order of the records, whatever the naming service would answer. *)
Theorem dissimilar_categories_keep_their_groups suggest (fd : list file_record) :
  all_apart (Spec.profiles fd) = true →
  merge_categories suggest fd
  = Ok ((λ c, (c, files_of fd c)) <$> Spec.first_seen (category <$> fd)).
Proof.
  intros Hall. apply merge_categories_of_apart. by apply all_apart_spec.
Qed.

Lemma dissimilar_categories_keep_their_groups_witness :
  all_apart (Spec.profiles misc_and_documents) = true
  ∧ merge_categories always_media misc_and_documents
    = Ok [("Misc", [("/in/notes", "notes")]);
          ("Documents", [("/in/report.doc", "quarterly_report.doc")])].
Proof.
  assert (all_apart (Spec.profiles misc_and_documents) = true) as H
    by (vm_compute; reflexivity).
  split; [exact H|].
  rewrite (dissimilar_categories_keep_their_groups always_media _ H).
  vm_compute. reflexivity.
Defined.

(** ** What [analyze_filename] returns *)

Lemma sanitize_clean (s : string) : clean (sanitize s) = true.
Proof.
  induction s as [|c s IH]; [done|]. simpl.
  destruct (illegal_char c) eqn:Hc; [done|]. simpl. by rewrite Hc.
Qed.

(** X6.  The category [analyze_filename] returns never has a character that
    is illegal in a folder name, and the new name always ends with the
    extension of the file; when the service answered, what precedes the
    extension has no illegal character either. *)
Theorem analyze_filename_names_are_usable (llm : string → reply) (filename : string) :
  clean (analyze_filename llm filename).1.1 = true
  ∧ ∃ stem, (analyze_filename llm filename).1.2 = stem +:+ (splitext filename).2
      ∧ (llm (splitext filename).1 ≠ Failed → clean stem = true).
Proof.
  unfold analyze_filename.
  pose proof (splitext_join filename) as Hjoin.
  destruct (splitext filename) as [name ext]. simpl in *.
  destruct (llm name) as [|result]; simpl.
  - split; [done|]. exists name. by rewrite Hjoin.
  - split; [apply sanitize_clean|]. eexists. split; [done|].
    intros _. apply sanitize_clean.
Qed.

Lemma lstrip_head (s : string) :
  lstrip s = EmptyString ∨ ∃ c r, lstrip s = String c r ∧ is_space c = false.
Proof.
  induction s as [|c s IH]; [by left|]. simpl.
  destruct (is_space c) eqn:Hc; [done|]. right. by exists c, s.
Qed.

Lemma rstrip_idemp (s : string) : rstrip (rstrip s) = rstrip s.
Proof.
  induction s as [|c s IH]; [done|]. simpl.
  destruct (rstrip s) as [|a t] eqn:Hr.
  - destruct (is_space c) eqn:Hc; [done|]. simpl. by rewrite Hc.
  - change (rstrip (String c (String a t)))
      with (match rstrip (String a t) with
            | EmptyString => if is_space c then EmptyString else String c EmptyString
            | r' => String c r'
            end).
    by rewrite IH.
Qed.

Lemma rstrip_head (c : ascii) (r : string) :
  is_space c = false → ∃ r', rstrip (String c r) = String c r'.
Proof.
  intros Hc. simpl. destruct (rstrip r); [rewrite Hc|]; by eexists.
Qed.

Lemma strip_idemp (s : string) : strip (strip s) = strip s.
Proof.
  unfold strip. destruct (lstrip_head s) as [->|(c & r & -> & Hc)]; [done|].
  destruct (rstrip_head c r Hc) as [r' Hr]. rewrite Hr.
  cbn [lstrip]. rewrite Hc, <- Hr. apply rstrip_idemp.
Qed.

(** X7.  Every keyword [analyze_filename] returns is free of surrounding
    white space: stripping it again changes nothing. *)
Theorem analyze_filename_keywords_stripped (llm : string → reply)
    (filename k : string) :
  k ∈ (analyze_filename llm filename).2 → strip k = k.
Proof.
  unfold analyze_filename. destruct (splitext filename) as [name ext].
  destruct (llm name) as [|result]; simpl; [by intros ?%elem_of_nil|].
  destruct (re_search "KEYWORDS:" result) as [g|]; [|by intros ?%elem_of_nil].
  intros (k' & -> & _)%list_elem_of_fmap. apply strip_idemp.
Qed.

Lemma analyze_filename_keywords_stripped_witness :
  "render" ∈ (analyze_filename
                (λ _, Content (formatted_answer "GameDev" "3d ,  render , game" "level"))
                "lvl.blend").2
  ∧ strip "render" = "render".
Proof.
  assert ("render" ∈ (analyze_filename
            (λ _, Content (formatted_answer "GameDev" "3d ,  render , game" "level"))
            "lvl.blend").2) as H.
  { vm_compute. right. left. }
  split; [exact H|].
  exact (analyze_filename_keywords_stripped _ _ _ H).
Defined.

(** ** Answers without labels *)

Lemma strip_prefix_None (prefix s : string) :
  starts_with prefix s = false → strip_prefix prefix s = None.
Proof.
  revert s. induction prefix as [|a prefix IH]; intros [|b s]; simpl; try done.
  case_bool_decide; simpl; [|by rewrite decide_False].
  intros Hs. rewrite decide_True by done. by apply IH.
Qed.

Lemma re_search_None (label s : string) :
  contains label s = false → re_search label s = None.
Proof.
  induction s as [|c s IH]; simpl.
  - rewrite orb_false_r. intros Hs. by rewrite strip_prefix_None.
  - intros [Hs Hc]%orb_false_iff. rewrite strip_prefix_None by done.
    simpl. by apply IH.
Qed.

(** X8.  An answer in which none of the three labels occurs is no failure:
    the category is [Misc] and there are no keywords, but the new name is
    the stem of the file with its illegal characters deleted, followed by
    the extension, which need not be the name of the file. *)
Theorem analyze_filename_without_labels (llm : string → reply)
    (filename result : string) :
  llm (splitext filename).1 = Content result →
  contains "CATEGORY:" result = false →
  contains "KEYWORDS:" result = false →
  contains "NEWNAME:" result = false →
  analyze_filename llm filename
  = ("Misc", sanitize (splitext filename).1 +:+ (splitext filename).2, []).
Proof.
  intros Hllm Hc Hk Hn. unfold analyze_filename.
  destruct (splitext filename) as [name ext]. simpl in *.
  by rewrite Hllm, !re_search_None.
Qed.

Lemma analyze_filename_without_labels_witness :
  off_format (splitext "a:b.txt").1 = Content "no idea"
  ∧ contains "CATEGORY:" "no idea" = false
  ∧ contains "KEYWORDS:" "no idea" = false
  ∧ contains "NEWNAME:" "no idea" = false
  ∧ analyze_filename off_format "a:b.txt" = ("Misc", "ab.txt", []).
Proof.
  split_and!; [reflexivity..|].
  exact (analyze_filename_without_labels off_format "a:b.txt" "no idea"
           eq_refl eq_refl eq_refl eq_refl).
Defined.

(** ** Answers in the requested format *)

Lemma append_empty_l (t : string) : EmptyString +:+ t = t.
Proof. done. Qed.

Lemma re_search_skip (label : string) (a : ascii) (s : string) :
  strip_prefix label (String a s) = None →
  re_search label (String a s) = re_search label s.
Proof. intros H. simpl in *. by rewrite H. Qed.

Lemma re_search_hit (label s rest g : string) :
  strip_prefix label s = Some rest → spaces_then_group rest = Some g →
  re_search label s = Some g.
Proof. intros H1 H2. destruct s; simpl in *; by rewrite H1; simpl; rewrite H2. Qed.

Lemma dot_plus_line (c rest : string) :
  lacks "010" c = true → dot_plus (c +:+ String "010" rest) = c.
Proof.
  induction c as [|a c IH]; [done|]. rewrite append_cons. simpl.
  intros [Ha%negb_true_iff Hc]%andb_true_iff.
  unfold is_newline. rewrite Ha. f_equal. by apply IH.
Qed.

Lemma dot_plus_end (c : string) : lacks "010" c = true → dot_plus c = c.
Proof.
  induction c as [|a c IH]; [done|]. simpl.
  intros [Ha%negb_true_iff Hc]%andb_true_iff.
  unfold is_newline. rewrite Ha. f_equal. by apply IH.
Qed.

Lemma spaces_then_group_after_space (a : ascii) (r : string) :
  is_space a = false →
  spaces_then_group (String " " (String a r)) = Some (dot_plus (String a r)).
Proof.
  intros Ha. cbn [spaces_then_group].
  assert (is_space " " = true) as -> by reflexivity. by rewrite Ha.
Qed.

Lemma strip_prefix_no_colon (label c rest : string) :
  lacks ":" label = false → lacks "010" label = true → lacks ":" c = true →
  strip_prefix label (c +:+ String "010" rest) = None.
Proof.
  revert c. induction label as [|a label IH]; intros c Hcolon Hnl Hc; [done|].
  simpl in Hnl. apply andb_true_iff in Hnl as [Ha%negb_true_iff%bool_decide_eq_false Hnl].
  destruct c as [|b c].
  - rewrite append_empty_l. simpl. by rewrite decide_False.
  - rewrite append_cons. simpl. destruct (decide (a = b)) as [->|]; [|done].
    simpl in Hc, Hcolon.
    apply andb_true_iff in Hc as [Hb Hc]. rewrite Hb in Hcolon.
    by apply IH.
Qed.

Lemma re_search_skip_line (label c rest : string) :
  lacks ":" label = false → lacks "010" label = true → lacks ":" c = true →
  re_search label (c +:+ String "010" rest) = re_search label rest.
Proof.
  intros Hcolon Hnl. induction c as [|b c IH]; intros Hc.
  - rewrite append_empty_l.
    apply re_search_skip, (strip_prefix_no_colon label EmptyString); done.
  - pose proof (strip_prefix_no_colon label (String b c) rest Hcolon Hnl Hc) as Hnone.
    rewrite append_cons in *. rewrite re_search_skip by done.
    apply IH. simpl in Hc. by apply andb_true_iff in Hc as [_ ?].
Qed.

Lemma plain_field_head (s : string) :
  plain_field s = true →
  ∃ a r, s = String a r ∧ is_space a = false ∧ lacks "010" s = true.
Proof.
  destruct s as [|a r]; [done|]. unfold plain_field.
  intros [Ha%negb_true_iff Hl]%andb_true_iff. by exists a, r.
Qed.

(** X9.  An answer in the format the prompt asks for, with fields that stay
    on one line, do not start with white space and, for the category and the
    keywords, have no colon, is read back field by field: the category and
    the new name stripped and sanitized, the keywords split at the commas
    and stripped, the extension of the file appended to the new name. *)
Theorem analyze_filename_reads_formatted_answer (llm : string → reply)
    (filename c k n : string) :
  llm (splitext filename).1 = Content (formatted_answer c k n) →
  plain_field c = true → plain_field k = true → plain_field n = true →
  lacks ":" c = true → lacks ":" k = true →
  analyze_filename llm filename
  = (sanitize (strip c), sanitize (strip n) +:+ (splitext filename).2,
     strip <$> split_on "," k).
Proof.
  intros Hllm (ac & rc & Hc & Hac & Hlc)%plain_field_head
    (ak & rk & Hk & Hak & Hlk)%plain_field_head
    (an & rn & Hn & Han & Hln)%plain_field_head Hcc Hck.
  assert (re_search "CATEGORY:" (formatted_answer c k n) = Some c) as H1.
  { unfold formatted_answer.
    eapply re_search_hit; [reflexivity|].
    rewrite append_empty_l. unfold newline. rewrite append_cons, append_empty_l.
    rewrite Hc at 1. rewrite append_cons, spaces_then_group_after_space by done.
    rewrite <- append_cons, <- Hc. by rewrite dot_plus_line. }
  assert (re_search "KEYWORDS:" (formatted_answer c k n) = Some k) as H2.
  { unfold formatted_answer, newline.
    repeat first [rewrite append_cons | rewrite append_empty_l].
    do 10 (rewrite re_search_skip by reflexivity).
    rewrite re_search_skip_line by done.
    eapply re_search_hit; [reflexivity|].
    rewrite Hk at 1. rewrite append_cons, spaces_then_group_after_space by done.
    rewrite <- append_cons, <- Hk. by rewrite dot_plus_line. }
  assert (re_search "NEWNAME:" (formatted_answer c k n) = Some n) as H3.
  { unfold formatted_answer, newline.
    repeat first [rewrite append_cons | rewrite append_empty_l].
    do 10 (rewrite re_search_skip by reflexivity).
    rewrite re_search_skip_line by done.
    do 10 (rewrite re_search_skip by reflexivity).
    rewrite re_search_skip_line by done.
    eapply re_search_hit; [reflexivity|].
    rewrite Hn at 1. rewrite spaces_then_group_after_space by done.
    rewrite <- Hn. by rewrite dot_plus_end. }
  unfold analyze_filename. destruct (splitext filename) as [name ext].
  cbn [fst snd] in Hllm |- *. by rewrite Hllm, H1, H2, H3.
Qed.

Lemma analyze_filename_reads_formatted_answer_witness :
  plain_field "GameDev" = true
  ∧ plain_field "3d ,  render , game" = true
  ∧ plain_field "level: props?" = true
  ∧ lacks ":" "GameDev" = true
  ∧ lacks ":" "3d ,  render , game" = true
  ∧ analyze_filename
      (λ _, Content (formatted_answer "GameDev" "3d ,  render , game" "level: props?"))
      "lvl.blend"
    = ("GameDev", "level props.blend", ["3d"; "render"; "game"]).
Proof.
  split_and!; [reflexivity..|].
  exact (analyze_filename_reads_formatted_answer
           (λ _, Content (formatted_answer "GameDev" "3d ,  render , game" "level: props?"))
           "lvl.blend" "GameDev" "3d ,  render , game" "level: props?"
           eq_refl eq_refl eq_refl eq_refl eq_refl eq_refl).
Defined.

(** ** Which files a run decides on *)

Lemma organize_groups_sources w target dry_run groups st st' :
  organize_groups w target dry_run groups st = Ok st' →
  d_source <$> trace st' ≡ₚ (d_source <$> trace st) ++ (mjoin groups.*2).*1.
Proof.
  intros Hrun.
  enough ((d_source <$> trace st') ++ (@nil (string * string)).*1
          ≡ₚ (d_source <$> trace st) ++ (mjoin groups.*2).*1) as Hperm
    by by rewrite app_nil_r in Hperm.
  revert Hrun.
  apply (organize_groups_invariant w target dry_run
           (λ rem st0, (d_source <$> trace st0) ++ rem.*1
                       ≡ₚ (d_source <$> trace st) ++ (mjoin groups.*2).*1));
    [done| |done].
  intros cat f rem st0 Hst0. rewrite <- Hst0.
  destruct (place_file_cases w dry_run cat (path_join target cat) st0 f)
    as [(_ & _ & _ & ->)|[(_ & _ & _ & ->)|(_ & _ & _ & _ & ->)]];
    rewrite fmap_app, fmap_cons, <- app_assoc; done.
Qed.

(** X10.  A run that completes decides exactly once on each file the first
    loop discovered and on nothing else: the sources of its decisions are
    the discovered files, in some order.  So no decision concerns a path
    that is not a regular file, or one that contains [.git], [__pycache__]
    or [.pytest_cache]. *)
Theorem every_discovered_file_decided_once w fs0 (listing : list string)
    target dry_run st :
  organize_files w fs0 listing target dry_run = Ok st →
  d_source <$> trace st ≡ₚ discovered fs0 listing
  ∧ ∀ d, d ∈ trace st →
      is_file fs0 (d_source d) = true ∧ excluded (d_source d) = false.
Proof.
  intros (fs1 & data & merged & Hfs1 & Hdisc & Hdata & Hmerge & Hrun)%organize_files_Ok.
  apply merge_categories_members in Hmerge.
  apply organize_groups_sources in Hrun. simpl in Hrun.
  assert (d_source <$> trace st ≡ₚ discovered fs0 listing) as Hperm.
  { rewrite Hrun, Hmerge, <- list_fmap_compose, <- Hdata. done. }
  split; [done|]. intros d Hd.
  assert (d_source d ∈ discovered fs0 listing) as Hin.
  { rewrite <- Hperm. apply list_elem_of_fmap. by exists d. }
  unfold discovered in Hin.
  apply list_elem_of_filter in Hin as [[? ?%negb_true_iff]%andb_true_iff _]. done.
Qed.

Lemma every_discovered_file_decided_once_witness :
  ∃ st, organize_files scenario_C two_drafts_fs two_drafts "/out" false = Ok st
    ∧ d_source <$> trace st ≡ₚ discovered two_drafts_fs two_drafts
    ∧ ∀ d, d ∈ trace st →
        is_file two_drafts_fs (d_source d) = true ∧ excluded (d_source d) = false.
Proof.
  destruct (organize_files scenario_C two_drafts_fs two_drafts "/out" false)
    as [st|] eqn:Hrun; [|by vm_compute in Hrun].
  exists st. split; [done|].
  exact (every_discovered_file_decided_once _ _ _ _ _ _ Hrun).
Defined.

(** ** What a run leaves alone *)







(** ** How a run can end *)

Lemma organize_groups_raises w target dry_run groups st (e : exn) :
  organize_groups w target dry_run groups st = Raise e →
  e = FileExistsError ∧ dry_run = false.
Proof.
  revert st. induction groups as [|[cat files] groups IH]; intros st; simpl; [done|].
  destruct dry_run; simpl; [apply IH|].
  unfold mkdir. destruct (fs st !! path_join target cat) as [[]|]; simpl;
    [by intros [= <-]|apply IH..].
Qed.

(** X12.  A dry run is ended by no fault but the division of the
    consolidation: it completes when at most one category of the records of
    the discovered files has no keyword, and raises [ZeroDivisionError]
    otherwise.  Paths that exist and moves that would be refused play no
    part in it. *)
Theorem dry_run_ends_only_by_division (w : world) fs0 (listing : list string)
    target :
  let data := imap (λ i p, record_of (classify w i) p) (discovered fs0 listing) in
  if at_most_one_empty (Spec.profiles data)
  then ∃ st, organize_files w fs0 listing target true = Ok st
  else organize_files w fs0 listing target true = Raise ZeroDivisionError.
Proof.
  intros data. unfold organize_files. simpl.
  pose proof (collect_spec (classify w) fs0 listing []) as Hc.
  simpl in Hc. rewrite Hc. fold data. unfold merge_categories.
  destruct (at_most_one_empty (Spec.profiles data)) eqn:Hone.
  - destruct (merge_run_ok (suggest w) data Hone) as (ms & -> & _). simpl.
    destruct (organize_groups _ _ _ _ _) as [st|e] eqn:Hrun; [by eexists|].
    by apply organize_groups_raises in Hrun as [_ ?].
  - by rewrite merge_run_raises.
Qed.

(** ** No file is lost or doubled *)






(** ** A run without the classification service *)

Lemma organize_groups_order w target dry_run groups st st' :
  organize_groups w target dry_run groups st = Ok st' →
  (λ d, (d_category d, d_source d)) <$> trace st'
  = ((λ d, (d_category d, d_source d)) <$> trace st)
    ++ mjoin ((λ g, (λ f, (g.1, f.1)) <$> g.2) <$> groups).
Proof.
  assert (∀ cat cp files st0,
    (λ d, (d_category d, d_source d))
      <$> trace (foldl (place_file w dry_run cat cp) st0 files)
    = ((λ d, (d_category d, d_source d)) <$> trace st0)
      ++ ((λ f : string * string, (cat, f.1)) <$> files)) as Hfold.
  { intros cat cp files. induction files as [|f files IH]; intros st0.
    - by rewrite app_nil_r.
    - cbn [foldl]. rewrite IH.
      destruct (place_file_cases w dry_run cat cp st0 f)
        as [(_ & _ & _ & ->)|[(_ & _ & _ & ->)|(_ & _ & _ & _ & ->)]];
        by rewrite fmap_app, <- app_assoc. }
  revert st. induction groups as [|[cat files] groups IH]; intros st; simpl.
  - intros [= <-]. by rewrite app_nil_r.
  - destruct (if dry_run then Ok (fs st) else mkdir _ _) as [fs'|]; [simpl|done].
    intros Hrun%IH. rewrite Hrun, Hfold. simpl. by rewrite <- app_assoc.
Qed.

Lemma first_seen_constant (a : string) (l : list string) :
  l ≠ [] → (∀ x, x ∈ l → x = a) → Spec.first_seen l = [a].
Proof.
  destruct l as [|b l]; [done|]. intros _ Hl. simpl.
  rewrite (Hl b) by left. f_equal. apply filter_none.
  intros x Hx Hne. apply Hne, Hl. right.
  by apply (proj1 (first_seen_elem _ _)).
Qed.

Lemma files_of_all_misc (l : list string) :
  files_of ((λ p, FileRecord p "Misc" (path_name p) []) <$> l) "Misc"
  = (λ p, (p, path_name p)) <$> l.
Proof.
  unfold files_of. induction l as [|q qs IH]; [done|].
  rewrite fmap_cons, filter_cons, decide_True by done.
  rewrite !fmap_cons. simpl. by rewrite IH.
Qed.

Lemma merge_categories_all_misc suggest (l : list string) :
  merge_categories suggest ((λ p, FileRecord p "Misc" (path_name p) []) <$> l)
  = Ok (match l with
        | [] => []
        | _ :: _ => [("Misc", (λ p, (p, path_name p)) <$> l)]
        end).
Proof.
  destruct l as [|p ps]; [done|].
  rewrite merge_categories_of_apart; last first.
  { intros c1 k1 c2 k2 [H1 _]%profiles_elem [H2 _]%profiles_elem Hne.
    rewrite <- list_fmap_compose in H1, H2.
    apply list_elem_of_fmap in H1 as (? & -> & _), H2 as (? & -> & _). done. }
  rewrite <- list_fmap_compose, (first_seen_constant "Misc"); [|done|].
  - by rewrite list_fmap_singleton, files_of_all_misc.
  - by intros x (? & -> & _)%list_elem_of_fmap.
Qed.

Lemma collect_down w fs (listing : list string) :
  classifier_down w →
  foldl (collect_step (classify w) fs) ([], 0) listing
  = ((λ p, FileRecord p "Misc" (path_name p) []) <$> discovered fs listing,
     length (discovered fs listing)).
Proof.
  intros Hdown. pose proof (collect_spec (classify w) fs listing []) as Hc.
  simpl in Hc. rewrite Hc.
  f_equal. rewrite <- imap_const. apply imap_ext. intros i p _. simpl.
  unfold record_of. by rewrite analyze_filename_failed.
Qed.

(** X14.  When every request to the classification service fails, a dry run
    completes, and every run that completes decides on the discovered files
    in the order of their discovery, all of them in the group [Misc]. *)
Theorem classifier_down_files_everything_under_misc w fs0 (listing : list string)
    target :
  classifier_down w →
  (∃ st, organize_files w fs0 listing target true = Ok st)
  ∧ ∀ dry_run st, organize_files w fs0 listing target dry_run = Ok st →
      (λ d, (d_category d, d_source d)) <$> trace st
      = (λ p, ("Misc", p)) <$> discovered fs0 listing.
Proof.
  intros Hdown.
  split.
  - unfold organize_files. simpl. rewrite collect_down, merge_categories_all_misc by done. simpl.
    destruct (organize_groups _ _ _ _ _) as [st|e] eqn:Hrun; [by eexists|].
    by apply organize_groups_raises in Hrun as [_ ?].
  - intros dry_run st. unfold organize_files.
    destruct (if dry_run then Ok fs0 else mkdir target fs0) as [fs1|] eqn:Hfs1;
      [simpl|done].
    assert (discovered fs1 listing = discovered fs0 listing) as Hdisc.
    { destruct dry_run; [by injection Hfs1 as ->|]. by eapply mkdir_discovered. }
    rewrite collect_down, merge_categories_all_misc, Hdisc by done. simpl.
    intros Hrun%organize_groups_order. rewrite Hrun. simpl.
    destruct (discovered fs0 listing) as [|p ps]; [done|].
    simpl. rewrite app_nil_r. f_equal. by rewrite <- list_fmap_compose.
Qed.

Lemma classifier_down_files_everything_under_misc_witness :
  classifier_down service_down
  ∧ (∃ st, organize_files service_down two_drafts_fs two_drafts "/out" true = Ok st)
  ∧ ∀ dry_run st,
      organize_files service_down two_drafts_fs two_drafts "/out" dry_run = Ok st →
      (λ d, (d_category d, d_source d)) <$> trace st
      = (λ p, ("Misc", p)) <$> discovered two_drafts_fs two_drafts.
Proof.
  assert (classifier_down service_down) as H by (intros n name; reflexivity).
  split; [exact H|].
  exact (classifier_down_files_everything_under_misc service_down two_drafts_fs
           two_drafts "/out" H).
Defined.

(** ** Where the files are after a real run *)





